(** * The Monkey evaluator of monkey-ts: a shallow embedding

    This development embeds [src/evaluator/evaluator.ts] (class
    [Evaluator]) and states the properties of the evaluator as theorems.

    JavaScript objects have an identity: [switch (operand) { case TRUE: ... }]
    compares references, and [new Integer(..)] makes a reference that is
    equal to no earlier one.  The embedding therefore keeps a store of
    allocated runtime objects and passes references around, and the
    evaluator is written in a state monad over that store. *)

From Stdlib Require Import Floats ZArith Lia.
From stdpp Require Import base option list strings.

Set Warnings "-register-all".

(** ** The AST (module [ast], consumed read-only by the evaluator) *)

(** Modelled from the spec: the module [ast] is not part of the evaluator's
    file; the node variants and their fields are those of the data model
    (statements [LetStatement], [ReturnStatement], [ExpressionStatement];
    expressions [Identifier], [IntegerLiteral], [BooleanExpression],
    [PrefixExpression], [InfixExpression]; root [Program]) with the field
    names the evaluator reads.  [evaluate] takes any [Node] and dispatches on
    [node.kind] at run time, so there is one type of nodes, one constructor
    per kind.  [IntegerLiteral.value] is a host [number], an IEEE 754
    binary64 float. *)
Inductive Node : Type :=
| Program (statements : list Node)
| LetStatement (name : Node) (value : Node)
| ReturnStatement (returnValue : Node)
| ExpressionStatement (expression : Node)
| Identifier (value : string)
| IntegerLiteral (value : float)
| BooleanExpression (value : bool)
| PrefixExpression (operator : string) (right : Node)
| InfixExpression (operator : string) (left right : Node).

(** ** Runtime objects (module [object]) *)

Module ObjectTypes.

Inductive t : Set := INTEGER | BOOLEAN | NULL.

(** [===] on the members of the enumeration *)
Definition eqb (a b : t) : bool :=
  match a, b with
  | INTEGER, INTEGER | BOOLEAN, BOOLEAN | NULL, NULL => true
  | _, _ => false
  end.

End ObjectTypes.

(** Modelled from the spec: the classes [Integer], [BooleanLiteral] and
    [Null] of module [object] (an [EvalObject] is one of [Integer{value}],
    [BooleanLiteral{value}], [Null], and exposes a [type()] discriminator).
    A value of this type is the content of one allocated object. *)
Inductive EvalObject : Type :=
| Integer (value : float)
| BooleanLiteral (value : bool)
| Null.

Definition type_of (o : EvalObject) : ObjectTypes.t :=
  match o with
  | Integer _ => ObjectTypes.INTEGER
  | BooleanLiteral _ => ObjectTypes.BOOLEAN
  | Null => ObjectTypes.NULL
  end.

(** ** The object store *)

(** A reference is the index of an object in the store; [===] on objects is
    equality of references. *)
Abbreviation ref := nat.
Abbreviation heap := (list EvalObject).

(** What a JavaScript expression of type [EvalObject | null | undefined]
    holds.  Object references are truthy, [null] and [undefined] falsy. *)
Inductive JSValue : Type :=
| Obj (r : ref)
| JSnull
| JSundefined.

Definition absent (v : JSValue) : Prop :=
  match v with Obj _ => False | _ => True end.

(** Computations over the store.  [None] is a computation that does not
    complete normally: the only abnormal completion of this code would be a
    property access through something that is not the object the static type
    promises (a [TypeError], or garbage), which here is a dangling
    reference or a [value] read through a wrong cast. *)
Definition M (A : Type) : Type := heap -> option (A * heap).

Definition ret {A} (a : A) : M A := fun h => Some (a, h).

Definition bind {A B} (c : M A) (k : A -> M B) : M B :=
  fun h => match c h with
           | Some (a, h') => k a h'
           | None => None
           end.

Notation "x <- c ;; k" := (bind c (fun x => k))
  (at level 100, c at next level, right associativity).

(** [new C(..)]: the object is appended to the store, its reference is the
    next free index. *)
Definition new (o : EvalObject) : M ref :=
  fun h => Some (length h, h ++ [o]).

(** [o.type()] *)
Definition type (r : ref) : M ObjectTypes.t :=
  fun h => match h !! r with
           | Some o => Some (type_of o, h)
           | None => None
           end.

(** [(o as Integer).value]; the cast itself is not checked at run time, the
    callers check [type()] first. *)
Definition Integer_value (r : ref) : M float :=
  fun h => match h !! r with
           | Some (Integer value) => Some (value, h)
           | _ => None
           end.

(** [(o as BooleanLiteral).value] *)
Definition BooleanLiteral_value (r : ref) : M bool :=
  fun h => match h !! r with
           | Some (BooleanLiteral value) => Some (value, h)
           | _ => None
           end.

(** ** Module-level constants

    [const NULL = new Null(); const TRUE = new BooleanLiteral(true);
     const FALSE = new BooleanLiteral(false);] run once, in this order, when
    the module is loaded. *)
Definition module_init : M (ref * ref * ref) :=
  NULL <- new Null ;;
  TRUE <- new (BooleanLiteral true) ;;
  FALSE <- new (BooleanLiteral false) ;;
  ret (NULL, TRUE, FALSE).

Definition NULL : ref := 0.
Definition TRUE : ref := 1.
Definition FALSE : ref := 2.

Definition initial_heap : heap :=
  [Null; BooleanLiteral true; BooleanLiteral false].

(** Every store the evaluator runs in has been reached from the one left by
    the module initialisation, by allocations only. *)
Definition loaded (h : heap) : Prop := initial_heap `prefix_of` h.

(** ** class Evaluator *)

Definition toBooleanLiteral (value : bool) : ref :=
  if value then TRUE else FALSE.

Definition evaluateBangOperatorExpression (operand : ref) : ref :=
  if Nat.eqb operand TRUE then FALSE
  else if Nat.eqb operand FALSE then TRUE
  else if Nat.eqb operand NULL then TRUE
  else FALSE.

Definition evaluateMinusOperatorExpression (operand : ref) : M JSValue :=
  t <- type operand ;;
  if negb (ObjectTypes.eqb t ObjectTypes.INTEGER) then ret JSnull
  else
    value <- Integer_value operand ;;
    r <- new (Integer (- value)%float) ;;
    ret (Obj r).

Definition evaluatePrefixExpression (operator : string) (operand : ref)
  : M JSValue :=
  if String.eqb operator "!" then
    ret (Obj (evaluateBangOperatorExpression operand))
  else if String.eqb operator "-" then
    evaluateMinusOperatorExpression operand
  else ret (Obj NULL).

Definition evaluateIntegerInfixExpression (operator : string)
  (left right : ref) : M JSValue :=
  leftValue <- Integer_value left ;;
  rightValue <- Integer_value right ;;
  if String.eqb operator "+" then
    r <- new (Integer (leftValue + rightValue)%float) ;; ret (Obj r)
  else if String.eqb operator "-" then
    r <- new (Integer (leftValue - rightValue)%float) ;; ret (Obj r)
  else if String.eqb operator "*" then
    r <- new (Integer (leftValue * rightValue)%float) ;; ret (Obj r)
  else if String.eqb operator "/" then
    r <- new (Integer (leftValue / rightValue)%float) ;; ret (Obj r)
  else if String.eqb operator "<" then
    r <- new (BooleanLiteral (leftValue <? rightValue)%float) ;; ret (Obj r)
  else if String.eqb operator ">" then
    r <- new (BooleanLiteral (rightValue <? leftValue)%float) ;; ret (Obj r)
  else if String.eqb operator "==" then
    r <- new (BooleanLiteral (leftValue =? rightValue)%float) ;; ret (Obj r)
  else if String.eqb operator "!=" then
    r <- new (BooleanLiteral (negb (leftValue =? rightValue)%float)) ;;
    ret (Obj r)
  else
    r <- new Null ;; ret (Obj r).

Definition evaluateBooleanInfixExpression (operator : string)
  (left right : ref) : M JSValue :=
  leftValue <- BooleanLiteral_value left ;;
  rightValue <- BooleanLiteral_value right ;;
  if String.eqb operator "==" then
    ret (Obj (toBooleanLiteral (Bool.eqb leftValue rightValue)))
  else if String.eqb operator "!=" then
    ret (Obj (toBooleanLiteral (negb (Bool.eqb leftValue rightValue))))
  else
    r <- new Null ;; ret (Obj r).

(** [left.type() === t && right.type() === t]: [&&] asks the right operand
    for its type only when the left one has type [t]. *)
Definition both_of_type (t : ObjectTypes.t) (left right : ref) : M bool :=
  lt <- type left ;;
  if ObjectTypes.eqb lt t then
    rt <- type right ;;
    ret (ObjectTypes.eqb rt t)
  else ret false.

Definition evaluateInfixExpression (operator : string) (left right : ref)
  : M JSValue :=
  integers <- both_of_type ObjectTypes.INTEGER left right ;;
  if integers then evaluateIntegerInfixExpression operator left right
  else
    booleans <- both_of_type ObjectTypes.BOOLEAN left right ;;
    if booleans then evaluateBooleanInfixExpression operator left right
    else
      r <- new Null ;; ret (Obj r).

(** The body of [evaluateStatements], over the function it calls on each
    statement: [result] starts out [undefined] and is overwritten by every
    iteration of the [for ... of] loop. *)
Section EvaluateStatements.

Variable evaluate : Node -> M JSValue.

Fixpoint for_of (statements : list Node) (result : JSValue) : M JSValue :=
  match statements with
  | [] => ret result
  | statement :: rest =>
      result' <- evaluate statement ;;
      for_of rest result'
  end.

End EvaluateStatements.

(** The body of [evaluate]; [self] stands for the method itself in the
    recursive calls [this.evaluate(..)], the call in the loop of
    [evaluateStatements] included.  In the [Infix] case a falsy operand leaves
    the [switch] through [break], and the method ends without a [return]:
    the caller gets [undefined]. *)
Definition evaluate_body (self : Node -> M JSValue) (node : Node)
  : M JSValue :=
  match node with
  | Program statements => for_of self statements JSundefined
  | ExpressionStatement expression => self expression
  | IntegerLiteral value => r <- new (Integer value) ;; ret (Obj r)
  | BooleanExpression value => ret (Obj (toBooleanLiteral value))
  | PrefixExpression operator right_ =>
      evaluatedRightExpressions <- self right_ ;;
      match evaluatedRightExpressions with
      | Obj operand => evaluatePrefixExpression operator operand
      | falsy => ret falsy
      end
  | InfixExpression operator left_ right_ =>
      evaluatedLeftExpression <- self left_ ;;
      evaluatedRightExpression <- self right_ ;;
      match evaluatedLeftExpression, evaluatedRightExpression with
      | Obj l, Obj r => evaluateInfixExpression operator l r
      | _, _ => ret JSundefined
      end
  | LetStatement _ _ | ReturnStatement _ | Identifier _ => ret JSnull
  end.

(** [evaluate] calls itself on parts of its argument only, so it is a
    structural fixpoint of its body. *)
Fixpoint evaluate (node : Node) : M JSValue := evaluate_body evaluate node.

(** The same method without that knowledge: the recursion is unrolled at most
    [fuel] calls deep, and a deeper call does not complete. *)
Fixpoint evaluate_fuel (fuel : nat) (node : Node) : M JSValue :=
  match fuel with
  | 0 => fun _ => None
  | S fuel' => evaluate_body (evaluate_fuel fuel') node
  end.

Definition evaluateStatements (statements : list Node) : M JSValue :=
  for_of evaluate statements JSundefined.

(** ** Vocabulary of the statements *)

(** A value is usable in a store when it is falsy or refers to an allocated
    object. *)
Definition allocated (h : heap) (v : JSValue) : Prop :=
  match v with
  | Obj r => is_Some (h !! r)
  | _ => True
  end.

(** [completes c h]: run in [h], the computation completes normally, the
    store it leaves extends [h], and its result is usable there. *)
Definition completes (c : M JSValue) (h : heap) : Prop :=
  exists v h', c h = Some (v, h') /\ h `prefix_of` h' /\ allocated h' v.

(** The nesting depth of a node: no chain of nested calls of [evaluate] is
    longer. *)
Fixpoint height (node : Node) : nat :=
  match node with
  | Program statements => S (list_max (map height statements))
  | LetStatement name value => S (Nat.max (height name) (height value))
  | ReturnStatement returnValue => S (height returnValue)
  | ExpressionStatement expression => S (height expression)
  | Identifier _ | IntegerLiteral _ | BooleanExpression _ => 1
  | PrefixExpression _ right_ => S (height right_)
  | InfixExpression _ left_ right_ => S (Nat.max (height left_) (height right_))
  end.

(** The parts of a node that [evaluate_body] passes to [self], in the order
    of the calls. *)
Definition operands (node : Node) : list Node :=
  match node with
  | Program statements => statements
  | ExpressionStatement expression => [expression]
  | PrefixExpression _ right_ => [right_]
  | InfixExpression _ left_ right_ => [left_; right_]
  | LetStatement _ _ | ReturnStatement _ | Identifier _
  | IntegerLiteral _ | BooleanExpression _ => []
  end.

(** One call of [self] on each node of a list, first to last, every call in
    the store left by the one before; the results are collected. *)
Fixpoint for_each (self : Node -> M JSValue) (nodes : list Node)
  : M (list JSValue) :=
  match nodes with
  | [] => ret []
  | node :: rest =>
      v <- self node ;;
      vs <- for_each self rest ;;
      ret (v :: vs)
  end.

(** What is left of [evaluate_body] once the results of the recursive calls
    are known; no call of [evaluate] is left in it. *)
Definition finish (node : Node) (results : list JSValue) : M JSValue :=
  match node, results with
  | Program _, _ => ret (List.last results JSundefined)
  | ExpressionStatement _, [v] => ret v
  | IntegerLiteral value, _ => r <- new (Integer value) ;; ret (Obj r)
  | BooleanExpression value, _ => ret (Obj (toBooleanLiteral value))
  | PrefixExpression operator _, [Obj operand] =>
      evaluatePrefixExpression operator operand
  | PrefixExpression _ _, [falsy] => ret falsy
  | InfixExpression operator _ _, [Obj l; Obj r] =>
      evaluateInfixExpression operator l r
  | InfixExpression _ _ _, [_; _] => ret JSundefined
  | _, _ => ret JSnull
  end.

(** The kinds that have a [case] in the [switch] of [evaluate]. *)
Definition handled_kind (node : Node) : bool :=
  match node with
  | Program _ | ExpressionStatement _ | IntegerLiteral _
  | BooleanExpression _ | PrefixExpression _ _ | InfixExpression _ _ _ => true
  | LetStatement _ _ | ReturnStatement _ | Identifier _ => false
  end.

(** Whether a host number is a whole number ([Number.isInteger]): zero, or
    a finite [m * 2^e] in which [2^(-e)] divides [m]. *)
Definition is_integral (x : float) : bool :=
  match Prim2SF x with
  | S754_zero _ => true
  | S754_finite _ m e => ((0 <=? e) || (Z.pos m mod 2 ^ (- e) =? 0))%Z
  | S754_infinity _ | S754_nan => false
  end.

(** The three module constants, as references. *)
Definition constant (r : ref) : Prop := r = NULL \/ r = TRUE \/ r = FALSE.

(** The number of nodes of a tree. *)
Fixpoint node_count (node : Node) : nat :=
  match node with
  | Program statements => S (list_sum (map node_count statements))
  | LetStatement name value => S (node_count name + node_count value)
  | ReturnStatement returnValue => S (node_count returnValue)
  | ExpressionStatement expression => S (node_count expression)
  | Identifier _ | IntegerLiteral _ | BooleanExpression _ => 1
  | PrefixExpression _ right_ => S (node_count right_)
  | InfixExpression _ left_ right_ => S (node_count left_ + node_count right_)
  end.

(** A value that is no object, a module constant, or one of the objects [k]
    appended to the store [h]. *)
Definition constant_or_among (h k : heap) (v : JSValue) : Prop :=
  match v with
  | Obj r => constant r \/ length h <= r < length h + length k
  | JSnull | JSundefined => True
  end.

(** [appends n c h]: run in [h], the computation completes normally, it
    leaves [h] with at most [n] objects appended and nothing else changed,
    and it returns no object, a module constant, or one of the objects it
    appended. *)
Definition appends (n : nat) (c : M JSValue) (h : heap) : Prop :=
  exists v k,
    c h = Some (v, h ++ k) /\ length k <= n /\ constant_or_among h k v.

(** Two results, each read in its own store, that no step of the evaluator
    can tell apart: the same absent value, the same module constant, or two
    objects that are not module constants and have the same content. *)
Definition same_value (h1 : heap) (v1 : JSValue) (h2 : heap) (v2 : JSValue)
  : Prop :=
  match v1, v2 with
  | JSnull, JSnull | JSundefined, JSundefined => True
  | Obj r1, Obj r2 =>
      (constant r1 /\ r1 = r2) \/
      (~ constant r1 /\ ~ constant r2 /\
       exists o, h1 !! r1 = Some o /\ h2 !! r2 = Some o)
  | _, _ => False
  end.

(** The number that an expression made of integer literals, prefix [-] and
    infix [+ - * /] stands for, in the arithmetic of the host numbers;
    [None] for every other node. *)
Fixpoint arithmetic_value (node : Node) : option float :=
  match node with
  | IntegerLiteral value => Some value
  | PrefixExpression operator right_ =>
      match arithmetic_value right_ with
      | Some a => if String.eqb operator "-" then Some (- a)%float else None
      | None => None
      end
  | InfixExpression operator left_ right_ =>
      match arithmetic_value left_, arithmetic_value right_ with
      | Some a, Some b =>
          if String.eqb operator "+" then Some (a + b)%float
          else if String.eqb operator "-" then Some (a - b)%float
          else if String.eqb operator "*" then Some (a * b)%float
          else if String.eqb operator "/" then Some (a / b)%float
          else None
      | _, _ => None
      end
  | _ => None
  end.

(** The truth value that an expression stands for when it is a Boolean
    literal, a comparison [< > == !=] of two arithmetic expressions, or
    [==] or [!=] between two such expressions; [None] for every other
    node. *)
Fixpoint truth_value (node : Node) : option bool :=
  match node with
  | BooleanExpression value => Some value
  | InfixExpression operator left_ right_ =>
      match arithmetic_value left_, arithmetic_value right_ with
      | Some a, Some b =>
          if String.eqb operator "<" then Some (a <? b)%float
          else if String.eqb operator ">" then Some (b <? a)%float
          else if String.eqb operator "==" then Some (a =? b)%float
          else if String.eqb operator "!=" then Some (negb (a =? b)%float)
          else None
      | _, _ =>
          match truth_value left_, truth_value right_ with
          | Some a, Some b =>
              if String.eqb operator "==" then Some (Bool.eqb a b)
              else if String.eqb operator "!=" then Some (negb (Bool.eqb a b))
              else None
          | _, _ => None
          end
      end
  | _ => None
  end.

(** ** Induction over nodes

    [Program] holds a list of nodes, so the induction principle carries the
    hypothesis for every statement of the list. *)
Section NodeInduction.
Variable P : Node -> Prop.
Hypothesis HProgram :
  forall statements, Forall P statements -> P (Program statements).
Hypothesis HLet :
  forall name value, P name -> P value -> P (LetStatement name value).
Hypothesis HReturn : forall rv, P rv -> P (ReturnStatement rv).
Hypothesis HExpression :
  forall expression, P expression -> P (ExpressionStatement expression).
Hypothesis HIdentifier : forall value, P (Identifier value).
Hypothesis HInteger : forall value, P (IntegerLiteral value).
Hypothesis HBoolean : forall value, P (BooleanExpression value).
Hypothesis HPrefix :
  forall operator right, P right -> P (PrefixExpression operator right).
Hypothesis HInfix :
  forall operator left right,
    P left -> P right -> P (InfixExpression operator left right).

Fixpoint Node_nested_ind (node : Node) : P node :=
  match node with
  | Program statements =>
      HProgram statements
        ((fix all (l : list Node) : Forall P l :=
            match l with
            | [] => List.Forall_nil P
            | n :: l' => List.Forall_cons P n l' (Node_nested_ind n) (all l')
            end) statements)
  | LetStatement name value =>
      HLet name value (Node_nested_ind name) (Node_nested_ind value)
  | ReturnStatement rv => HReturn rv (Node_nested_ind rv)
  | ExpressionStatement e => HExpression e (Node_nested_ind e)
  | Identifier value => HIdentifier value
  | IntegerLiteral value => HInteger value
  | BooleanExpression value => HBoolean value
  | PrefixExpression operator r => HPrefix operator r (Node_nested_ind r)
  | InfixExpression operator l r =>
      HInfix operator l r (Node_nested_ind l) (Node_nested_ind r)
  end.
End NodeInduction.

(** ** The store only grows, and loaded stores hold the three constants *)

Lemma module_init_run :
  module_init [] = Some ((NULL, TRUE, FALSE), initial_heap).
Proof. reflexivity. Qed.

Lemma loaded_initial : loaded initial_heap.
Proof. unfold loaded. reflexivity. Qed.

Lemma loaded_lookup (h : heap) :
  loaded h ->
  h !! NULL = Some Null /\
  h !! TRUE = Some (BooleanLiteral true) /\
  h !! FALSE = Some (BooleanLiteral false).
Proof. intros [k ->]. repeat split. Qed.

Lemma loaded_length (h : heap) : loaded h -> 3 <= length h.
Proof. intros [k ->]. rewrite length_app. simpl. lia. Qed.

Lemma loaded_extends (h h' : heap) :
  loaded h -> h `prefix_of` h' -> loaded h'.
Proof. unfold loaded. intros. by etrans. Qed.

Lemma fresh_not_constant (h : heap) :
  loaded h ->
  length h <> NULL /\ length h <> TRUE /\ length h <> FALSE.
Proof. intros H%loaded_length. unfold NULL, TRUE, FALSE. lia. Qed.

Lemma lookup_fresh (h : heap) (o : EvalObject) :
  h !! length h = None /\ (h ++ [o]) !! length h = Some o.
Proof.
  split.
  - apply lookup_ge_None. lia.
  - rewrite lookup_app_r by lia. by rewrite Nat.sub_diag.
Qed.

Lemma lookup_extends (h h' : heap) (r : ref) (o : EvalObject) :
  h `prefix_of` h' -> h !! r = Some o -> h' !! r = Some o.
Proof. intros [k ->] H. by apply lookup_app_l_Some. Qed.

Lemma completes_new (o : EvalObject) (h : heap) :
  completes (r <- new o ;; ret (Obj r)) h.
Proof.
  exists (Obj (length h)), (h ++ [o]). split; [done|]. split.
  - by apply prefix_app_r.
  - unfold allocated. rewrite (proj2 (lookup_fresh h o)). by eexists.
Qed.

Lemma completes_ret (v : JSValue) (h : heap) :
  allocated h v -> completes (ret v) h.
Proof. intros H. by exists v, h. Qed.

Lemma toBooleanLiteral_allocated (h : heap) (b : bool) :
  loaded h -> h !! toBooleanLiteral b = Some (BooleanLiteral b).
Proof. intros (_ & HT & HF)%loaded_lookup. by destruct b. Qed.

(** Reads of the store *)

Lemma type_run (h : heap) (r : ref) (o : EvalObject) :
  h !! r = Some o -> type r h = Some (type_of o, h).
Proof. intros H. unfold type. by rewrite H. Qed.

Lemma Integer_value_run (h : heap) (r : ref) (value : float) :
  h !! r = Some (Integer value) -> Integer_value r h = Some (value, h).
Proof. intros H. unfold Integer_value. by rewrite H. Qed.

Lemma BooleanLiteral_value_run (h : heap) (r : ref) (value : bool) :
  h !! r = Some (BooleanLiteral value) ->
  BooleanLiteral_value r h = Some (value, h).
Proof. intros H. unfold BooleanLiteral_value. by rewrite H. Qed.

Lemma both_of_type_run (t : ObjectTypes.t) (h : heap) (left right : ref)
    (l r : EvalObject) :
  h !! left = Some l -> h !! right = Some r ->
  both_of_type t left right h
  = Some (ObjectTypes.eqb (type_of l) t && ObjectTypes.eqb (type_of r) t, h).
Proof.
  intros Hl Hr. unfold both_of_type, bind, type, ret. rewrite Hl.
  destruct (ObjectTypes.eqb (type_of l) t); [|done]. by rewrite Hr.
Qed.

Lemma bind_run {A B} (c : M A) (k : A -> M B) (h h' : heap) (a : A) :
  c h = Some (a, h') -> bind c k h = k a h'.
Proof. intros H. unfold bind. by rewrite H. Qed.

Lemma completes_read {A} (c : M A) (k : A -> M JSValue) (h : heap) (a : A) :
  c h = Some (a, h) -> completes (k a) h -> completes (bind c k) h.
Proof. intros H. unfold completes. by rewrite (bind_run c k h h a H). Qed.

(** ** The operators complete on allocated operands *)

Ltac run :=
  unfold evaluatePrefixExpression, evaluateMinusOperatorExpression,
    evaluateInfixExpression, evaluateIntegerInfixExpression,
    evaluateBooleanInfixExpression, bind, ret, new, type, Integer_value,
    BooleanLiteral_value.

Lemma evaluateMinusOperatorExpression_run (h : heap) (operand : ref)
    (o : EvalObject) :
  h !! operand = Some o ->
  evaluateMinusOperatorExpression operand h =
    match o with
    | Integer value => Some (Obj (length h), h ++ [Integer (- value)%float])
    | _ => Some (JSnull, h)
    end.
Proof. intros H. run. rewrite H. destruct o; simpl; by rewrite ?H. Qed.

Lemma evaluateBangOperatorExpression_constant (operand : ref) :
  evaluateBangOperatorExpression operand = TRUE \/
  evaluateBangOperatorExpression operand = FALSE.
Proof.
  unfold evaluateBangOperatorExpression.
  repeat case (Nat.eqb _ _); auto.
Qed.

Lemma evaluatePrefixExpression_completes (operator : string) (h : heap)
    (operand : ref) :
  loaded h -> is_Some (h !! operand) ->
  completes (evaluatePrefixExpression operator operand) h.
Proof.
  intros Hl [o Ho]. destruct (loaded_lookup h Hl) as (HN & HT & HF).
  unfold evaluatePrefixExpression.
  destruct (String.eqb operator "!").
  { apply completes_ret. unfold allocated.
    destruct (evaluateBangOperatorExpression_constant operand) as [-> | ->];
      by eexists. }
  destruct (String.eqb operator "-").
  - unfold completes.
    rewrite (evaluateMinusOperatorExpression_run h operand o Ho).
    destruct o; [|by exists JSnull, h..].
    eexists _, _. split; [done|]. split; [by apply prefix_app_r|].
    unfold allocated. rewrite (proj2 (lookup_fresh h _)). by eexists.
  - apply completes_ret. by exists Null.
Qed.

Lemma evaluateIntegerInfixExpression_completes (operator : string)
    (h : heap) (left right : ref) (a b : float) :
  h !! left = Some (Integer a) -> h !! right = Some (Integer b) ->
  completes (evaluateIntegerInfixExpression operator left right) h.
Proof.
  intros Ha Hb. unfold evaluateIntegerInfixExpression.
  eapply completes_read; [by apply Integer_value_run|].
  eapply completes_read; [by apply Integer_value_run|].
  repeat (case (String.eqb operator _); [apply completes_new|]).
  apply completes_new.
Qed.

Lemma evaluateBooleanInfixExpression_completes (operator : string)
    (h : heap) (left right : ref) (a b : bool) :
  loaded h ->
  h !! left = Some (BooleanLiteral a) -> h !! right = Some (BooleanLiteral b) ->
  completes (evaluateBooleanInfixExpression operator left right) h.
Proof.
  intros Hl Ha Hb. unfold evaluateBooleanInfixExpression.
  eapply completes_read; [by apply BooleanLiteral_value_run|].
  eapply completes_read; [by apply BooleanLiteral_value_run|].
  repeat (case (String.eqb operator _);
          [apply completes_ret; unfold allocated;
           rewrite toBooleanLiteral_allocated by done; by eexists|]).
  apply completes_new.
Qed.

Lemma evaluateInfixExpression_completes (operator : string) (h : heap)
    (left right : ref) :
  loaded h -> is_Some (h !! left) -> is_Some (h !! right) ->
  completes (evaluateInfixExpression operator left right) h.
Proof.
  intros Hl [a Ha] [b Hb]. unfold evaluateInfixExpression.
  eapply completes_read; [by apply both_of_type_run|].
  destruct a, b; simpl;
    try (eapply completes_read; [by apply both_of_type_run|]; simpl);
    first [ by eapply evaluateIntegerInfixExpression_completes
          | by eapply evaluateBooleanInfixExpression_completes
          | apply completes_new ].
Qed.

(** ** [evaluate] completes on every node *)

Lemma for_of_completes (statements : list Node) :
  Forall (fun node => forall h, loaded h -> completes (evaluate node) h)
         statements ->
  forall result h, loaded h -> allocated h result ->
    completes (for_of evaluate statements result) h.
Proof.
  induction 1 as [|statement rest Hs _ IH]; intros result h Hl Hr; simpl.
  - by apply completes_ret.
  - destruct (Hs h Hl) as (v & h1 & E & Hp & Ha).
    destruct (IH v h1 (loaded_extends _ _ Hl Hp) Ha)
      as (v' & h2 & E' & Hp' & Ha').
    exists v', h2. unfold bind. rewrite E.
    split; [done|]. split; [by etrans|done].
Qed.

Lemma evaluate_completes (node : Node) (h : heap) :
  loaded h -> completes (evaluate node) h.
Proof.
  revert h. induction node as
    [statements IH | | | expression IH | | value | value
    | operator right IH | operator left right IHl IHr] using Node_nested_ind;
    intros h Hl; simpl; try by apply completes_ret.
  - by apply for_of_completes.
  - by apply IH.
  - apply completes_new.
  - apply completes_ret. unfold allocated.
    rewrite toBooleanLiteral_allocated by done. by eexists.
  - destruct (IH h Hl) as (v & h1 & E & Hp & Ha).
    unfold bind. destruct v as [operand| |].
    + destruct (evaluatePrefixExpression_completes operator h1 operand)
        as (v' & h2 & E' & Hp' & Ha'); [by eapply loaded_extends|done|].
      exists v', h2. rewrite E. split; [done|]. split; [by etrans|done].
    + exists JSnull, h1. by rewrite E.
    + exists JSundefined, h1. by rewrite E.
  - destruct (IHl h Hl) as (vl & h1 & El & Hpl & Hal).
    assert (loaded h1) as Hl1 by by eapply loaded_extends.
    destruct (IHr h1 Hl1) as (vr & h2 & Er & Hpr & Har).
    assert (loaded h2) as Hl2 by by eapply loaded_extends.
    unfold completes, bind. rewrite El, Er.
    destruct vl as [l| |], vr as [r| |];
      try (exists JSundefined, h2; split; [done|]; split; [by etrans|done]).
    destruct (evaluateInfixExpression_completes operator h2 l r)
      as (v' & h3 & E' & Hp' & Ha'); [done| |done|].
    { destruct Hal as [o Ho]. exists o. by apply (lookup_extends h1 h2). }
    exists v', h3. split; [done|]. split; [|done].
    transitivity h1; [done|]. by transitivity h2.
Qed.

(** ** Unrolling the recursion *)

Lemma for_of_ext (f g : Node -> M JSValue) (statements : list Node) :
  Forall (fun statement => forall h, f statement h = g statement h)
         statements ->
  forall result h,
    for_of f statements result h = for_of g statements result h.
Proof.
  induction 1 as [|statement rest Hs _ IH]; intros result h; simpl; [done|].
  unfold bind. rewrite Hs.
  destruct (g statement h) as [[v h1]|]; [apply IH|done].
Qed.

Lemma height_statements (statements : list Node) (fuel : nat) :
  list_max (map height statements) < fuel ->
  Forall (fun statement => height statement < fuel) statements.
Proof.
  induction statements as [|statement rest IH]; simpl; intros H; constructor.
  - lia.
  - apply IH. lia.
Qed.

Lemma evaluate_fuel_enough (node : Node) :
  forall fuel h,
    height node < fuel -> evaluate_fuel fuel node h = evaluate node h.
Proof.
  induction node as
    [statements IH | | | expression IH | | value | value
    | operator right IH | operator left right IHl IHr] using Node_nested_ind;
    intros [|fuel] h Hf; try (simpl in Hf; lia); simpl in *; try done.
  - apply for_of_ext. apply Nat.succ_lt_mono, height_statements in Hf.
    induction IH as [|statement rest Hs _ IHrest]; constructor.
    + intros h0. apply Hs. by inversion Hf.
    + apply IHrest. by inversion Hf.
  - apply IH. lia.
  - unfold bind. rewrite IH by lia. done.
  - unfold bind. rewrite IHl by lia.
    destruct (evaluate left h) as [[vl h1]|]; [|done].
    by rewrite IHr by lia.
Qed.

(** ** The body makes one call per operand *)

Lemma last_cons_default {A} (v d : A) (vs : list A) :
  List.last (v :: vs) d = List.last vs v.
Proof.
  revert v d. induction vs as [|w vs IH]; intros v d; [done|].
  change (List.last (w :: vs) d = List.last (w :: vs) v).
  by rewrite (IH w d), (IH w v).
Qed.

Lemma for_of_for_each (self : Node -> M JSValue) (statements : list Node) :
  forall result h,
    for_of self statements result h =
    (results <- for_each self statements ;; ret (List.last results result)) h.
Proof.
  induction statements as [|statement rest IH]; intros result h; [done|].
  simpl. unfold bind. destruct (self statement h) as [[v h1]|]; [|done].
  rewrite IH. unfold bind, ret.
  destruct (for_each self rest h1) as [[vs h2]|]; [|done].
  by rewrite last_cons_default.
Qed.

Lemma evaluate_body_single_pass (self : Node -> M JSValue) (node : Node)
    (h : heap) :
  evaluate_body self node h =
  (results <- for_each self (operands node) ;; finish node results) h.
Proof.
  destruct node as
    [statements | | | expression | | value | value
    | operator right | operator left right]; try done.
  - simpl. by rewrite for_of_for_each.
  - simpl. unfold bind, ret. by destruct (self expression h) as [[v h1]|].
  - simpl. unfold bind, ret.
    destruct (self right h) as [[v h1]|]; [|done]. by destruct v.
  - simpl. unfold bind, ret.
    destruct (self left h) as [[vl h1]|]; [|done].
    destruct (self right h1) as [[vr h2]|]; [|done].
    by destruct vl, vr.
Qed.

(** ** Runs of the operators *)

(** Rewrites the reads of the store at the head of a computation with the
    lookups found among the hypotheses. *)
Ltac reads :=
  repeat (erewrite bind_run
            by (first [ apply both_of_type_run | apply type_run
                      | apply Integer_value_run
                      | apply BooleanLiteral_value_run ]; eassumption);
          cbn [type_of ObjectTypes.eqb andb]).

Lemma evaluateIntegerInfixExpression_comparison (h : heap) (left right : ref)
    (a b : float) :
  h !! left = Some (Integer a) -> h !! right = Some (Integer b) ->
  evaluateInfixExpression "<" left right h
    = Some (Obj (length h), h ++ [BooleanLiteral (a <? b)%float]) /\
  evaluateInfixExpression ">" left right h
    = Some (Obj (length h), h ++ [BooleanLiteral (b <? a)%float]) /\
  evaluateInfixExpression "==" left right h
    = Some (Obj (length h), h ++ [BooleanLiteral (a =? b)%float]) /\
  evaluateInfixExpression "!=" left right h
    = Some (Obj (length h), h ++ [BooleanLiteral (negb (a =? b)%float)]).
Proof.
  intros Ha Hb. unfold evaluateInfixExpression. reads. simpl.
  unfold evaluateIntegerInfixExpression. reads. by repeat split.
Qed.

Lemma integer_comparison_never_shared (h : heap) (left right : ref)
    (a b : float) (operator : string) :
  loaded h ->
  h !! left = Some (Integer a) -> h !! right = Some (Integer b) ->
  operator = "<" \/ operator = ">" \/ operator = "==" \/ operator = "!=" ->
  exists value,
    evaluateInfixExpression operator left right h
    = Some (Obj (length h), h ++ [BooleanLiteral value]) /\
    length h <> TRUE /\ length h <> FALSE.
Proof.
  intros Hl Ha Hb Hop.
  destruct (fresh_not_constant h Hl) as (_ & HT & HF).
  destruct (evaluateIntegerInfixExpression_comparison h left right a b Ha Hb)
    as (Hlt & Hgt & Heq & Hne).
  destruct Hop as [-> | [-> | [-> | ->]]]; eauto.
Qed.

Lemma evaluateBooleanInfixExpression_equality (h : heap) (left right : ref)
    (a b : bool) :
  h !! left = Some (BooleanLiteral a) -> h !! right = Some (BooleanLiteral b) ->
  evaluateInfixExpression "==" left right h
    = Some (Obj (toBooleanLiteral (Bool.eqb a b)), h) /\
  evaluateInfixExpression "!=" left right h
    = Some (Obj (toBooleanLiteral (negb (Bool.eqb a b))), h).
Proof.
  intros Ha Hb. unfold evaluateInfixExpression. reads. simpl.
  unfold evaluateBooleanInfixExpression. reads. by split.
Qed.

Lemma evaluateBooleanInfixExpression_other (h : heap) (left right : ref)
    (a b : bool) (operator : string) :
  h !! left = Some (BooleanLiteral a) -> h !! right = Some (BooleanLiteral b) ->
  operator <> "==" -> operator <> "!=" ->
  evaluateInfixExpression operator left right h
    = Some (Obj (length h), h ++ [Null]).
Proof.
  intros Ha Hb Heq Hne. unfold evaluateInfixExpression. reads. simpl.
  unfold evaluateBooleanInfixExpression. reads.
  apply String.eqb_neq in Heq, Hne. by rewrite Heq, Hne.
Qed.

Lemma evaluateInfixExpression_other_types (h : heap) (left right : ref)
    (l r : EvalObject) (operator : string) :
  h !! left = Some l -> h !! right = Some r ->
  type_of l <> type_of r \/ type_of l = ObjectTypes.NULL ->
  evaluateInfixExpression operator left right h
    = Some (Obj (length h), h ++ [Null]).
Proof.
  intros Hl Hr Ht. unfold evaluateInfixExpression.
  destruct l, r; simpl in Ht; try (by destruct Ht); by reads.
Qed.

Lemma evaluateBangOperatorExpression_table :
  evaluateBangOperatorExpression TRUE = FALSE /\
  evaluateBangOperatorExpression FALSE = TRUE /\
  evaluateBangOperatorExpression NULL = TRUE /\
  forall operand, operand <> TRUE -> operand <> FALSE -> operand <> NULL ->
    evaluateBangOperatorExpression operand = FALSE.
Proof.
  repeat split. intros operand HT HF HN.
  unfold evaluateBangOperatorExpression.
  apply Nat.eqb_neq in HT, HF, HN. by rewrite HT, HF, HN.
Qed.

Lemma bang_bang_true (h : heap) :
  evaluate (PrefixExpression "!"
              (PrefixExpression "!" (BooleanExpression true))) h
  = Some (Obj TRUE, h).
Proof. reflexivity. Qed.

(** * The properties of the evaluator *)

(** C1: an infix comparison of two Integers does not evaluate to the shared
    Boolean: [1 < 2] evaluates to a BooleanLiteral object allocated by that
    very evaluation, which holds [true] and is none of the three module
    constants, while the literal [true] evaluates to the constant [TRUE]. *)
Theorem integer_comparison_allocates_BooleanLiteral :
  evaluate (InfixExpression "<" (IntegerLiteral 1) (IntegerLiteral 2))
           initial_heap
  = Some (Obj 5, initial_heap ++ [Integer 1; Integer 2; BooleanLiteral true])
  /\ initial_heap !! 5 = None
  /\ (5 <> TRUE /\ 5 <> FALSE /\ 5 <> NULL)
  /\ evaluate (BooleanExpression true) initial_heap
     = Some (Obj TRUE, initial_heap).
Proof. by repeat split. Qed.

(** C2: [!] applied to the false Boolean that [1 > 2] evaluates to returns
    [FALSE], not [TRUE]: the operand is not the constant [FALSE], and the
    identity switch of [evaluateBangOperatorExpression] sends it to its
    default case.  On the constants themselves the switch is the stated
    table, and [!!true] is [TRUE]. *)
Theorem bang_of_computed_false :
  evaluate (InfixExpression ">" (IntegerLiteral 1) (IntegerLiteral 2))
           initial_heap
  = Some (Obj 5, initial_heap ++ [Integer 1; Integer 2; BooleanLiteral false])
  /\ evaluate (PrefixExpression "!"
                 (InfixExpression ">" (IntegerLiteral 1) (IntegerLiteral 2)))
              initial_heap
     = Some (Obj FALSE,
             initial_heap ++ [Integer 1; Integer 2; BooleanLiteral false])
  /\ evaluate (PrefixExpression "!" (BooleanExpression false)) initial_heap
     = Some (Obj TRUE, initial_heap).
Proof. by repeat split. Qed.

(** C3: on two Integers, [+], [-], [*] and [/] allocate a new Integer that
    holds the sum, difference, product and quotient of the two values in the
    arithmetic of the host numbers; the quotient is not truncated: [5 / 2]
    evaluates to an Integer holding [2.5], which is not a whole number. *)
Theorem integer_arithmetic_allocates_Integer (h : heap) (left right : ref)
    (a b : float) :
  h !! left = Some (Integer a) -> h !! right = Some (Integer b) ->
  h !! length h = None /\
  evaluateInfixExpression "+" left right h
    = Some (Obj (length h), h ++ [Integer (a + b)%float]) /\
  evaluateInfixExpression "-" left right h
    = Some (Obj (length h), h ++ [Integer (a - b)%float]) /\
  evaluateInfixExpression "*" left right h
    = Some (Obj (length h), h ++ [Integer (a * b)%float]) /\
  evaluateInfixExpression "/" left right h
    = Some (Obj (length h), h ++ [Integer (a / b)%float]) /\
  evaluate (InfixExpression "/" (IntegerLiteral 5) (IntegerLiteral 2))
           initial_heap
    = Some (Obj 5, initial_heap ++ [Integer 5; Integer 2; Integer 2.5]) /\
  is_integral 2.5 = false.
Proof.
  intros Ha Hb. split; [apply lookup_fresh; exact Null|].
  unfold evaluateInfixExpression. reads. simpl.
  unfold evaluateIntegerInfixExpression. reads. by repeat split.
Qed.

Lemma integer_arithmetic_allocates_Integer_witness :
  (initial_heap ++ [Integer 5; Integer 2]) !! 3 = Some (Integer 5) /\
  (initial_heap ++ [Integer 5; Integer 2]) !! 4 = Some (Integer 2) /\
  evaluateInfixExpression "/" 3 4 (initial_heap ++ [Integer 5; Integer 2])
  = Some (Obj 5, initial_heap ++ [Integer 5; Integer 2; Integer 2.5]).
Proof.
  split; [reflexivity|]. split; [reflexivity|].
  exact (proj1 (proj2 (proj2 (proj2 (proj2
    (integer_arithmetic_allocates_Integer
       (initial_heap ++ [Integer 5; Integer 2]) 3 4 5 2
       eq_refl eq_refl)))))).
Defined.

(** C4: an infix expression on operands of different types evaluates to a
    Null object allocated by that very evaluation, not to the constant
    [NULL]: [true + 1] completes normally with a reference that differs from
    [NULL], and [!(true + 1)] is then [FALSE] although [!] of [NULL] is
    [TRUE]. *)
Theorem mismatched_infix_allocates_Null :
  evaluate (InfixExpression "+" (BooleanExpression true) (IntegerLiteral 1))
           initial_heap
  = Some (Obj 4, initial_heap ++ [Integer 1; Null])
  /\ initial_heap !! 4 = None
  /\ 4 <> NULL
  /\ evaluate (PrefixExpression "!"
                 (InfixExpression "+" (BooleanExpression true)
                                  (IntegerLiteral 1)))
              initial_heap
     = Some (Obj FALSE, initial_heap ++ [Integer 1; Null])
  /\ evaluateBangOperatorExpression NULL = TRUE.
Proof. by repeat split. Qed.

(** C5: prefix [-] on an Integer allocates a new Integer that holds the
    negated value; on an object of any other type it returns [null], no
    object at all, and leaves the store as it was; [-true] evaluates to
    [null]. *)
Theorem minus_operator (h : heap) (operand : ref) (o : EvalObject) :
  h !! operand = Some o ->
  evaluatePrefixExpression "-" operand h
    = match o with
      | Integer value => Some (Obj (length h), h ++ [Integer (- value)%float])
      | BooleanLiteral _ | Null => Some (JSnull, h)
      end
  /\ h !! length h = None
  /\ evaluate (PrefixExpression "-" (BooleanExpression true)) initial_heap
     = Some (JSnull, initial_heap).
Proof.
  intros Ho. split; [|split; [apply lookup_fresh; exact Null|done]].
  unfold evaluatePrefixExpression. simpl.
  by apply evaluateMinusOperatorExpression_run.
Qed.

Lemma minus_operator_witness :
  (initial_heap ++ [Integer 7]) !! 3 = Some (Integer 7) /\
  evaluatePrefixExpression "-" 3 (initial_heap ++ [Integer 7])
  = Some (Obj 4, initial_heap ++ [Integer 7; Integer (-7)]).
Proof.
  split; [reflexivity|].
  exact (proj1 (minus_operator (initial_heap ++ [Integer 7]) 3 (Integer 7)
                               eq_refl)).
Defined.

(** ** Programs *)

Lemma bind_assoc_run {A B C} (c : M A) (k : A -> M B) (k' : B -> M C)
    (h : heap) :
  bind (bind c k) k' h = bind c (fun a => bind (k a) k') h.
Proof. unfold bind. by destruct (c h) as [[a h1]|]. Qed.

Lemma for_of_app (self : Node -> M JSValue) (statements : list Node)
    (last : Node) :
  forall result h,
    for_of self (statements ++ [last]) result h
    = (_ <- for_of self statements result ;; self last) h.
Proof.
  induction statements as [|statement rest IH]; intros result h; simpl.
  - unfold bind, ret. by destruct (self last h) as [[v h1]|].
  - rewrite (bind_assoc_run (self statement)).
    unfold bind at 1 2. destruct (self statement h) as [[v h1]|]; [|done].
    apply IH.
Qed.

(** C6: evaluating a Program that ends with the statement [last] is
    evaluating the statements before it, first to last, each in the store
    left by the one before, dropping what they return, and then evaluating
    [last] in the store they leave: the result of the Program is exactly
    the result of that evaluation of [last].  Said with the list of all
    results: every statement is evaluated once, in source order, and the
    last result is returned. *)
Theorem program_returns_last_statement (statements : list Node)
    (last : Node) (h : heap) :
  evaluate (Program (statements ++ [last])) h
  = (_ <- evaluateStatements statements ;; evaluate last) h
  /\
  evaluate (Program (statements ++ [last])) h
  = (results <- for_each evaluate (statements ++ [last]) ;;
     ret (List.last results JSundefined)) h.
Proof. split; [apply for_of_app | apply for_of_for_each]. Qed.

(** C7: on two Booleans, [true + false] evaluates to a Null object allocated
    by that very evaluation, not to the constant [NULL], and
    [!(true + false)] is then [FALSE]; [==] and [!=] do return the shared
    constants. *)
Theorem boolean_infix_other_operator_allocates_Null :
  evaluate (InfixExpression "+" (BooleanExpression true)
                            (BooleanExpression false))
           initial_heap
  = Some (Obj 3, initial_heap ++ [Null])
  /\ initial_heap !! 3 = None
  /\ 3 <> NULL
  /\ evaluate (PrefixExpression "!"
                 (InfixExpression "+" (BooleanExpression true)
                                  (BooleanExpression false)))
              initial_heap
     = Some (Obj FALSE, initial_heap ++ [Null])
  /\ evaluate (InfixExpression "==" (BooleanExpression true)
                               (BooleanExpression false))
              initial_heap
     = Some (Obj FALSE, initial_heap)
  /\ evaluate (InfixExpression "!=" (BooleanExpression true)
                               (BooleanExpression false))
              initial_heap
     = Some (Obj TRUE, initial_heap).
Proof. by repeat split. Qed.

(** C8: when the operand of a prefix expression evaluates to [null] or
    [undefined], the prefix expression evaluates to that same absent value;
    when the left or the right operand of an infix expression does, the
    infix expression evaluates to [undefined].  Both complete normally, in
    the store the operands leave, and no Null object stands in for the
    result. *)
Theorem absent_operand_propagates (operator : string) (left right : Node)
    (h h1 h2 : heap) (vl vr : JSValue) :
  evaluate left h = Some (vl, h1) ->
  evaluate right h1 = Some (vr, h2) ->
  (absent vr ->
   evaluate (PrefixExpression operator right) h1 = Some (vr, h2)) /\
  (absent vl \/ absent vr ->
   evaluate (InfixExpression operator left right) h = Some (JSundefined, h2)).
Proof.
  intros El Er. split.
  - intros Ha. simpl. unfold bind. rewrite Er. by destruct vr.
  - intros Ha. simpl. unfold bind. rewrite El, Er.
    destruct vl, vr; simpl in Ha; try done; by destruct Ha.
Qed.

Lemma absent_operand_propagates_witness :
  evaluate (PrefixExpression "-" (BooleanExpression true)) initial_heap
  = Some (JSnull, initial_heap) /\
  evaluate (IntegerLiteral 1) initial_heap
  = Some (Obj 3, initial_heap ++ [Integer 1]) /\
  evaluate (InfixExpression "+"
              (PrefixExpression "-" (BooleanExpression true))
              (IntegerLiteral 1))
           initial_heap
  = Some (JSundefined, initial_heap ++ [Integer 1]).
Proof.
  split; [reflexivity|]. split; [reflexivity|].
  exact (proj2 (absent_operand_propagates "+"
           (PrefixExpression "-" (BooleanExpression true)) (IntegerLiteral 1)
           initial_heap initial_heap (initial_heap ++ [Integer 1])
           JSnull (Obj 3) eq_refl eq_refl) (or_introl I)).
Defined.

(** ** Termination *)

Lemma operands_lower (node : Node) :
  Forall (fun operand => height operand < height node) (operands node).
Proof.
  destruct node as
    [statements | | | expression | | value | value
    | operator right | operator left right]; simpl;
    repeat (apply Forall_cons; split; [lia|]); try apply Forall_nil_2.
  induction statements as [|statement rest IH]; simpl; constructor.
  - lia.
  - eapply Forall_impl; [exact IH|]. simpl. intros operand Ho. lia.
Qed.

(** C9: [evaluate] terminates on every node.  Run in a store that holds the
    module constants, with the recursion unrolled deeper than the node is
    nested, the method returns a result (no call is cut off, no access
    fails), the same as the structural fixpoint.  One run of the body is one
    call on each operand of the node, first to last, each a strictly
    smaller node, followed by steps that call [evaluate] no more. *)
Theorem evaluate_terminates (node : Node) (h : heap) (fuel : nat) :
  loaded h -> height node < fuel ->
  (exists v h',
     evaluate_fuel fuel node h = Some (v, h') /\
     evaluate node h = Some (v, h') /\
     h `prefix_of` h' /\ allocated h' v) /\
  (forall self h0,
     evaluate_body self node h0
     = (results <- for_each self (operands node) ;; finish node results) h0) /\
  Forall (fun operand => height operand < height node) (operands node).
Proof.
  intros Hl Hf. split; [|split].
  - destruct (evaluate_completes node h Hl) as (v & h' & E & Hp & Ha).
    exists v, h'. by rewrite evaluate_fuel_enough.
  - intros self h0. apply evaluate_body_single_pass.
  - apply operands_lower.
Qed.

Lemma evaluate_terminates_witness :
  loaded initial_heap /\
  height (InfixExpression "+" (IntegerLiteral 1) (IntegerLiteral 2)) < 3 /\
  exists v h',
    evaluate_fuel 3 (InfixExpression "+" (IntegerLiteral 1) (IntegerLiteral 2))
                  initial_heap = Some (v, h') /\
    evaluate (InfixExpression "+" (IntegerLiteral 1) (IntegerLiteral 2))
             initial_heap = Some (v, h') /\
    initial_heap `prefix_of` h' /\ allocated h' v.
Proof.
  split; [apply loaded_initial|]. split; [simpl; lia|].
  apply (evaluate_terminates
           (InfixExpression "+" (IntegerLiteral 1) (IntegerLiteral 2))
           initial_heap 3); [apply loaded_initial | simpl; lia].
Defined.

(** ** Nodes without a case *)

(** C10: the [switch] of [evaluate] has a case for Program,
    ExpressionStatement, IntegerLiteral, Boolean, Prefix and Infix nodes
    only.  A node of another kind (LetStatement, ReturnStatement,
    Identifier) evaluates to [null] and a Program without statements to
    [undefined]: an absent result, returned normally, the store
    untouched. *)
Theorem unhandled_node_absent (node : Node) (h : heap) :
  handled_kind node = false \/ node = Program [] ->
  evaluate node h
    = Some (if handled_kind node then JSundefined else JSnull, h) /\
  absent (if handled_kind node then JSundefined else JSnull).
Proof.
  intros [Hk | ->]; [|done].
  destruct node; try discriminate Hk; done.
Qed.

Lemma unhandled_node_absent_witness :
  (handled_kind (LetStatement (Identifier "x") (IntegerLiteral 5)) = false \/
   LetStatement (Identifier "x") (IntegerLiteral 5) = Program []) /\
  evaluate (LetStatement (Identifier "x") (IntegerLiteral 5)) initial_heap
  = Some (JSnull, initial_heap).
Proof.
  split; [left; reflexivity|].
  exact (proj1 (unhandled_node_absent
                  (LetStatement (Identifier "x") (IntegerLiteral 5))
                  initial_heap (or_introl eq_refl))).
Defined.

(** * Further properties of the evaluator *)

(** ** What one operator application can return *)

Lemma constant_toBooleanLiteral (b : bool) : constant (toBooleanLiteral b).
Proof. unfold constant. destruct b; auto. Qed.

Lemma constant_bang (operand : ref) :
  constant (evaluateBangOperatorExpression operand).
Proof.
  unfold constant.
  destruct (evaluateBangOperatorExpression_constant operand); auto.
Qed.

Lemma constant_lt (h : heap) (r : ref) : loaded h -> constant r -> r < length h.
Proof.
  intros Hl%loaded_length [-> | [-> | ->]]; unfold NULL, TRUE, FALSE; lia.
Qed.

Lemma fresh_not_constant' (h : heap) : loaded h -> ~ constant (length h).
Proof.
  intros Hl Hc. apply (constant_lt h _ Hl) in Hc. lia.
Qed.

(** What an infix operator returns is decided by the content of its two
    operands: a new object of that content, or a Boolean constant. *)
Lemma evaluateInfixExpression_by_content (operator : string)
    (ol or : EvalObject) :
  exists res : EvalObject + bool,
    forall (h : heap) (l r : ref),
      h !! l = Some ol -> h !! r = Some or ->
      evaluateInfixExpression operator l r h
      = match res with
        | inl o => Some (Obj (length h), h ++ [o])
        | inr b => Some (Obj (toBooleanLiteral b), h)
        end.
Proof.
  unfold evaluateInfixExpression, evaluateIntegerInfixExpression,
    evaluateBooleanInfixExpression.
  destruct ol as [a|a|], or as [b|b|];
    repeat (destruct (String.eqb operator _));
    first [ by (eexists (inl _); intros h l r Hl Hr; reads)
          | by (eexists (inr _); intros h l r Hl Hr; reads) ].
Qed.

(** The same operator applied in two stores to operands of the same content:
    both runs allocate the same object, or both return the same constant. *)
Lemma evaluateInfixExpression_two_stores (operator : string) (h1 h2 : heap)
    (l1 r1 l2 r2 : ref) (ol or : EvalObject) :
  h1 !! l1 = Some ol -> h1 !! r1 = Some or ->
  h2 !! l2 = Some ol -> h2 !! r2 = Some or ->
  (exists o,
     evaluateInfixExpression operator l1 r1 h1
       = Some (Obj (length h1), h1 ++ [o]) /\
     evaluateInfixExpression operator l2 r2 h2
       = Some (Obj (length h2), h2 ++ [o])) \/
  (exists b,
     evaluateInfixExpression operator l1 r1 h1
       = Some (Obj (toBooleanLiteral b), h1) /\
     evaluateInfixExpression operator l2 r2 h2
       = Some (Obj (toBooleanLiteral b), h2)).
Proof.
  intros Hl1 Hr1 Hl2 Hr2.
  destruct (evaluateInfixExpression_by_content operator ol or) as [[o|b] H].
  - left. exists o. by rewrite (H h1 l1 r1), (H h2 l2 r2).
  - right. exists b. by rewrite (H h1 l1 r1), (H h2 l2 r2).
Qed.

Lemma evaluatePrefixExpression_two_stores (operator : string) (h1 h2 : heap)
    (r1 r2 : ref) (o : EvalObject) :
  h1 !! r1 = Some o -> h2 !! r2 = Some o ->
  evaluateBangOperatorExpression r1 = evaluateBangOperatorExpression r2 ->
  (exists c, constant c /\
     evaluatePrefixExpression operator r1 h1 = Some (Obj c, h1) /\
     evaluatePrefixExpression operator r2 h2 = Some (Obj c, h2)) \/
  (evaluatePrefixExpression operator r1 h1 = Some (JSnull, h1) /\
   evaluatePrefixExpression operator r2 h2 = Some (JSnull, h2)) \/
  (exists value, o = Integer value /\
     evaluatePrefixExpression operator r1 h1
       = Some (Obj (length h1), h1 ++ [Integer (- value)%float]) /\
     evaluatePrefixExpression operator r2 h2
       = Some (Obj (length h2), h2 ++ [Integer (- value)%float])).
Proof.
  intros H1 H2 Hb. unfold evaluatePrefixExpression.
  destruct (String.eqb operator "!").
  { left. exists (evaluateBangOperatorExpression r1).
    split; [apply constant_bang|]. by rewrite Hb. }
  destruct (String.eqb operator "-").
  - rewrite (evaluateMinusOperatorExpression_run h1 r1 o H1),
            (evaluateMinusOperatorExpression_run h2 r2 o H2).
    destruct o; [right; right; by eexists | right; by left..].
  - left. exists NULL. unfold constant. auto.
Qed.

(** ** Two runs of the same node *)

Lemma same_value_extends (h1 h1' h2 h2' : heap) (v1 v2 : JSValue) :
  h1 `prefix_of` h1' -> h2 `prefix_of` h2' ->
  same_value h1 v1 h2 v2 -> same_value h1' v1 h2' v2.
Proof.
  intros Hp1 Hp2. destruct v1 as [r1| |], v2 as [r2| |]; simpl; try done.
  intros [H | (Hc1 & Hc2 & o & Ho1 & Ho2)]; [by left|right].
  repeat split; try done. exists o.
  split; [by apply (lookup_extends h1) | by apply (lookup_extends h2)].
Qed.

Lemma same_value_operand (h1 h2 : heap) (r1 r2 : ref) :
  loaded h1 -> loaded h2 -> same_value h1 (Obj r1) h2 (Obj r2) ->
  (exists o, h1 !! r1 = Some o /\ h2 !! r2 = Some o) /\
  evaluateBangOperatorExpression r1 = evaluateBangOperatorExpression r2.
Proof.
  intros Hl1 Hl2 [[Hc <-] | (Hc1 & Hc2 & Ho)].
  - split; [|done].
    destruct (loaded_lookup h1 Hl1) as (HN1 & HT1 & HF1).
    destruct (loaded_lookup h2 Hl2) as (HN2 & HT2 & HF2).
    destruct Hc as [-> | [-> | ->]]; eauto.
  - split; [done|]. unfold constant in Hc1, Hc2.
    destruct evaluateBangOperatorExpression_table as (_ & _ & _ & H).
    rewrite !H; tauto.
Qed.

Lemma same_value_fresh (h1 h2 : heap) (o : EvalObject) :
  loaded h1 -> loaded h2 ->
  same_value (h1 ++ [o]) (Obj (length h1)) (h2 ++ [o]) (Obj (length h2)).
Proof.
  intros Hl1 Hl2. right.
  split; [by apply fresh_not_constant'|]. split; [by apply fresh_not_constant'|].
  exists o. split; apply lookup_fresh.
Qed.

Lemma same_value_constant (h1 h2 : heap) (c : ref) :
  constant c -> same_value h1 (Obj c) h2 (Obj c).
Proof. intros Hc. by left. Qed.

Lemma for_of_two_stores (statements : list Node) :
  Forall (fun node => forall h1 h2, loaded h1 -> loaded h2 ->
            exists v1 h1' v2 h2',
              evaluate node h1 = Some (v1, h1') /\
              evaluate node h2 = Some (v2, h2') /\
              h1 `prefix_of` h1' /\ h2 `prefix_of` h2' /\
              same_value h1' v1 h2' v2)
         statements ->
  forall result1 result2 h1 h2, loaded h1 -> loaded h2 ->
    same_value h1 result1 h2 result2 ->
    exists v1 h1' v2 h2',
      for_of evaluate statements result1 h1 = Some (v1, h1') /\
      for_of evaluate statements result2 h2 = Some (v2, h2') /\
      h1 `prefix_of` h1' /\ h2 `prefix_of` h2' /\
      same_value h1' v1 h2' v2.
Proof.
  induction 1 as [|statement rest Hs _ IH];
    intros result1 result2 h1 h2 Hl1 Hl2 Hr; simpl.
  - by exists result1, h1, result2, h2.
  - destruct (Hs h1 h2 Hl1 Hl2) as (v1 & h1a & v2 & h2a & E1 & E2 & P1 & P2 & Hv).
    destruct (IH v1 v2 h1a h2a) as (w1 & h1b & w2 & h2b & F1 & F2 & Q1 & Q2 & Hw);
      [by apply (loaded_extends h1) | by apply (loaded_extends h2) | done |].
    exists w1, h1b, w2, h2b. unfold bind. rewrite E1, E2.
    split_and!; try done; by etrans.
Qed.

Lemma evaluate_two_stores (node : Node) :
  forall h1 h2, loaded h1 -> loaded h2 ->
    exists v1 h1' v2 h2',
      evaluate node h1 = Some (v1, h1') /\
      evaluate node h2 = Some (v2, h2') /\
      h1 `prefix_of` h1' /\ h2 `prefix_of` h2' /\
      same_value h1' v1 h2' v2.
Proof.
  induction node as
    [statements IH | | | expression IH | | value | value
    | operator right IH | operator left right IHl IHr] using Node_nested_ind;
    intros h1 h2 Hl1 Hl2; simpl;
    try by (eexists _, h1, _, h2; split_and!).
  - by apply for_of_two_stores.
  - by apply IH.
  - eexists _, _, _, _.
    split_and!; [reflexivity | reflexivity | by apply prefix_app_r..|].
    by apply same_value_fresh.
  - eexists _, h1, _, h2. split_and!; [reflexivity | reflexivity | done..|].
    apply same_value_constant, constant_toBooleanLiteral.
  - destruct (IH h1 h2 Hl1 Hl2) as (v1 & h1a & v2 & h2a & E1 & E2 & P1 & P2 & Hv).
    assert (loaded h1a) as La1 by by apply (loaded_extends h1).
    assert (loaded h2a) as La2 by by apply (loaded_extends h2).
    unfold bind. rewrite E1, E2.
    destruct v1 as [r1| |], v2 as [r2| |]; try done;
      try by (eexists _, h1a, _, h2a; split_and!).
    destruct (same_value_operand h1a h2a r1 r2 La1 La2 Hv)
      as ((o & Ho1 & Ho2) & Hb).
    destruct (evaluatePrefixExpression_two_stores operator h1a h2a r1 r2 o
                Ho1 Ho2 Hb)
      as [(c & Hc & -> & ->) | [(-> & ->) | (value & -> & -> & ->)]].
    + eexists _, h1a, _, h2a. split_and!; [reflexivity | reflexivity | done..|].
      by apply same_value_constant.
    + by eexists _, h1a, _, h2a.
    + eexists _, _, _, _. split_and!; [reflexivity | reflexivity | ..].
      * transitivity h1a; [done | by apply prefix_app_r].
      * transitivity h2a; [done | by apply prefix_app_r].
      * by apply same_value_fresh.
  - destruct (IHl h1 h2 Hl1 Hl2)
      as (vl1 & h1a & vl2 & h2a & El1 & El2 & Pl1 & Pl2 & Hvl).
    assert (loaded h1a) as La1 by by apply (loaded_extends h1).
    assert (loaded h2a) as La2 by by apply (loaded_extends h2).
    destruct (IHr h1a h2a La1 La2)
      as (vr1 & h1b & vr2 & h2b & Er1 & Er2 & Pr1 & Pr2 & Hvr).
    assert (loaded h1b) as Lb1 by by apply (loaded_extends h1a).
    assert (loaded h2b) as Lb2 by by apply (loaded_extends h2a).
    assert (h1 `prefix_of` h1b) as P1 by by etrans.
    assert (h2 `prefix_of` h2b) as P2 by by etrans.
    apply (same_value_extends h1a h1b h2a h2b) in Hvl; [|done..].
    unfold bind. rewrite El1, El2, Er1, Er2.
    destruct vl1 as [l1| |], vl2 as [l2| |]; try done;
      destruct vr1 as [r1| |], vr2 as [r2| |]; try done;
      try by (eexists _, h1b, _, h2b; split_and!).
    destruct (same_value_operand h1b h2b l1 l2 Lb1 Lb2 Hvl)
      as ((ol & Hol1 & Hol2) & _).
    destruct (same_value_operand h1b h2b r1 r2 Lb1 Lb2 Hvr)
      as ((or & Hor1 & Hor2) & _).
    destruct (evaluateInfixExpression_two_stores operator h1b h2b l1 r1 l2 r2
                ol or Hol1 Hor1 Hol2 Hor2)
      as [(o & -> & ->) | (b & -> & ->)].
    + eexists _, _, _, _. split_and!; [reflexivity | reflexivity | ..].
      * transitivity h1b; [done | by apply prefix_app_r].
      * transitivity h2b; [done | by apply prefix_app_r].
      * by apply same_value_fresh.
    + eexists _, h1b, _, h2b. split_and!; [reflexivity | reflexivity | done..|].
      apply same_value_constant, constant_toBooleanLiteral.
Qed.

(** ** What a run appends to the store *)

Lemma constant_or_among_allocated (h k : heap) (v : JSValue) :
  loaded h -> constant_or_among h k v -> allocated (h ++ k) v.
Proof.
  intros Hl. destruct v as [r| |]; simpl; try done.
  intros H. apply lookup_lt_is_Some. rewrite length_app.
  destruct H as [Hc%(constant_lt h _ Hl) | H]; lia.
Qed.

Lemma constant_or_among_more (h k k' : heap) (v : JSValue) :
  constant_or_among h k v -> constant_or_among h (k ++ k') v.
Proof.
  destruct v as [r| |]; simpl; try done. rewrite length_app.
  intros [Hc | H]; [by left | right; lia].
Qed.

Lemma loaded_app (h k : heap) : loaded h -> loaded (h ++ k).
Proof. intros Hl. apply (loaded_extends h); [done | by apply prefix_app_r]. Qed.

Lemma evaluatePrefixExpression_appends (operator : string) (h0 k0 : heap)
    (operand : ref) :
  loaded h0 -> constant_or_among h0 k0 (Obj operand) ->
  exists v k,
    evaluatePrefixExpression operator operand (h0 ++ k0)
      = Some (v, (h0 ++ k0) ++ k) /\
    length k <= 1 /\ constant_or_among h0 (k0 ++ k) v.
Proof.
  intros Hl Hc.
  destruct (constant_or_among_allocated h0 k0 _ Hl Hc) as [o Ho].
  destruct (evaluatePrefixExpression_two_stores operator (h0 ++ k0) (h0 ++ k0)
              operand operand o Ho Ho eq_refl)
    as [(c & Hcc & -> & _) | [(-> & _) | (value & _ & -> & _)]].
  - exists (Obj c), []. rewrite !app_nil_r.
    split_and!; [done | simpl; lia | by left].
  - exists JSnull, []. rewrite !app_nil_r.
    split_and!; [done | simpl; lia | done].
  - eexists _, [_]. split; [done|]. split; [done|].
    simpl. right. rewrite !length_app. simpl. lia.
Qed.

Lemma evaluateInfixExpression_appends (operator : string) (h0 k0 : heap)
    (left right : ref) :
  loaded h0 ->
  constant_or_among h0 k0 (Obj left) -> constant_or_among h0 k0 (Obj right) ->
  exists r k,
    evaluateInfixExpression operator left right (h0 ++ k0)
      = Some (Obj r, (h0 ++ k0) ++ k) /\
    length k <= 1 /\ constant_or_among h0 (k0 ++ k) (Obj r).
Proof.
  intros Hl Hcl Hcr.
  destruct (constant_or_among_allocated h0 k0 _ Hl Hcl) as [ol Hol].
  destruct (constant_or_among_allocated h0 k0 _ Hl Hcr) as [or Hor].
  destruct (evaluateInfixExpression_by_content operator ol or) as [[o|b] H];
    rewrite (H _ _ _ Hol Hor).
  - eexists _, [_]. split; [done|]. split; [done|].
    simpl. right. rewrite !length_app. simpl. lia.
  - eexists _, []. rewrite !app_nil_r. split; [done|]. split; [simpl; lia|].
    left. apply constant_toBooleanLiteral.
Qed.

Lemma for_of_appends (statements : list Node) :
  Forall (fun node => forall h, loaded h ->
            appends (node_count node) (evaluate node) h) statements ->
  forall result h0 k0, loaded h0 -> constant_or_among h0 k0 result ->
    exists v k,
      for_of evaluate statements result (h0 ++ k0) = Some (v, (h0 ++ k0) ++ k) /\
      length k <= list_sum (map node_count statements) /\
      constant_or_among h0 (k0 ++ k) v.
Proof.
  induction 1 as [|statement rest Hs _ IH]; intros result h0 k0 Hl Hr; simpl.
  - exists result, []. rewrite !app_nil_r.
    split_and!; [done | simpl; lia | done].
  - destruct (Hs (h0 ++ k0) (loaded_app _ _ Hl)) as (v & k1 & E & Hn & Hv).
    assert (constant_or_among h0 (k0 ++ k1) v) as Hv'.
    { destruct v as [r| |]; simpl in *; try done. rewrite !length_app in *.
      destruct Hv as [Hc | H]; [by left | right; lia]. }
    destruct (IH v h0 (k0 ++ k1) Hl Hv') as (w & k2 & E' & Hn' & Hw).
    exists w, (k1 ++ k2). unfold bind. rewrite E.
    rewrite !app_assoc in *. split; [done|]. split; [|done].
    rewrite length_app. lia.
Qed.

Lemma evaluate_appends (node : Node) :
  forall h, loaded h -> appends (node_count node) (evaluate node) h.
Proof.
  induction node as
    [statements IH | | | expression IH | | value | value
    | operator right IH | operator left right IHl IHr] using Node_nested_ind;
    intros h Hl; simpl;
    try by (exists JSnull, []; rewrite app_nil_r; split_and!; simpl; try lia).
  - destruct (for_of_appends statements IH JSundefined h [] Hl I)
      as (v & k & E & Hn & Hv).
    rewrite app_nil_r in E. exists v, k. split; [done|]. split; [lia|done].
  - destruct (IH h Hl) as (v & k & E & Hn & Hv).
    exists v, k. split; [done|]. split; [lia|done].
  - eexists _, [_]. split; [reflexivity|]. split; [done|].
    simpl. right. lia.
  - eexists _, []. rewrite app_nil_r. split; [reflexivity|]. split; [simpl; lia|].
    left. apply constant_toBooleanLiteral.
  - destruct (IH h Hl) as (v & k & E & Hn & Hv). unfold appends, bind.
    rewrite E. destruct v as [operand| |];
      try by (eexists _, k; split_and!; [reflexivity | lia | done]).
    destruct (evaluatePrefixExpression_appends operator h k operand Hl Hv)
      as (w & k' & -> & Hn' & Hw).
    exists w, (k ++ k'). rewrite app_assoc. split; [done|]. split; [|done].
    rewrite length_app. lia.
  - destruct (IHl h Hl) as (vl & k1 & El & Hn1 & Hvl).
    destruct (IHr (h ++ k1) (loaded_app _ _ Hl)) as (vr & k2 & Er & Hn2 & Hvr).
    unfold appends, bind. rewrite El, Er.
    assert (constant_or_among h (k1 ++ k2) vl) as Hvl'
      by by apply constant_or_among_more.
    assert (constant_or_among h (k1 ++ k2) vr) as Hvr'.
    { destruct vr as [r| |]; simpl in *; try done. rewrite !length_app in *.
      destruct Hvr as [Hc | H]; [by left | right; lia]. }
    rewrite <- app_assoc.
    destruct vl as [l| |], vr as [r| |];
      try by (exists JSundefined, (k1 ++ k2);
              split_and!; [reflexivity | rewrite length_app; lia | done]).
    destruct (evaluateInfixExpression_appends operator h (k1 ++ k2) l r
                Hl Hvl' Hvr') as (w & k' & -> & Hn' & Hw).
    exists (Obj w), ((k1 ++ k2) ++ k'). rewrite !app_assoc.
    split; [done|]. split; [|by rewrite <- !app_assoc in *].
    rewrite !length_app. lia.
Qed.

(** ** Properties read off the code *)

(** X1: the value of a node does not depend on the store it is evaluated
    in.  Two runs of [evaluate] on the same node, in any two stores that
    hold the module constants, both complete, and their results cannot be
    told apart: both [null], both [undefined], the same module constant, or
    two objects of the same content that are not module constants. *)
Theorem evaluate_value_independent_of_store (node : Node) (h1 h2 : heap) :
  loaded h1 -> loaded h2 ->
  exists v1 h1' v2 h2',
    evaluate node h1 = Some (v1, h1') /\
    evaluate node h2 = Some (v2, h2') /\
    same_value h1' v1 h2' v2.
Proof.
  intros Hl1 Hl2.
  destruct (evaluate_two_stores node h1 h2 Hl1 Hl2)
    as (v1 & h1' & v2 & h2' & E1 & E2 & _ & _ & Hv).
  by exists v1, h1', v2, h2'.
Qed.

Lemma evaluate_value_independent_of_store_witness :
  loaded initial_heap /\ loaded (initial_heap ++ [Integer 9]) /\
  exists v1 h1' v2 h2',
    evaluate (InfixExpression "<" (IntegerLiteral 1) (IntegerLiteral 2))
             initial_heap = Some (v1, h1') /\
    evaluate (InfixExpression "<" (IntegerLiteral 1) (IntegerLiteral 2))
             (initial_heap ++ [Integer 9]) = Some (v2, h2') /\
    same_value h1' v1 h2' v2.
Proof.
  split; [by exists []|]. split; [by exists [Integer 9]|].
  apply (evaluate_value_independent_of_store
           (InfixExpression "<" (IntegerLiteral 1) (IntegerLiteral 2))
           initial_heap (initial_heap ++ [Integer 9]));
    [by exists [] | by exists [Integer 9]].
Defined.

(** X2: [evaluate] only appends to the store, and at most one object per
    node of the tree: the objects that were there stay where and what they
    were. *)
Theorem evaluate_appends_at_most_node_count (node : Node) (h : heap) :
  loaded h ->
  exists v k,
    evaluate node h = Some (v, h ++ k) /\ length k <= node_count node.
Proof.
  intros Hl. destruct (evaluate_appends node h Hl) as (v & k & E & Hn & _).
  by exists v, k.
Qed.

Lemma evaluate_appends_at_most_node_count_witness :
  loaded initial_heap /\
  exists v k,
    evaluate (InfixExpression "+" (IntegerLiteral 1) (BooleanExpression true))
             initial_heap = Some (v, initial_heap ++ k) /\
    length k <=
    node_count (InfixExpression "+" (IntegerLiteral 1) (BooleanExpression true)).
Proof.
  split; [by exists []|].
  apply (evaluate_appends_at_most_node_count
           (InfixExpression "+" (IntegerLiteral 1) (BooleanExpression true))
           initial_heap).
  by exists [].
Defined.

(** X3: an object that [evaluate] returns is a module constant or an object
    allocated by this very run; a reference to an object that was in the
    store before, other than the constants, is never returned. *)
Theorem evaluate_returns_constant_or_new (node : Node) (h h' : heap)
    (r : ref) :
  loaded h -> evaluate node h = Some (Obj r, h') ->
  constant r \/ (length h <= r < length h' /\ h !! r = None).
Proof.
  intros Hl E. destruct (evaluate_appends node h Hl) as (v & k & E' & _ & Hv).
  rewrite E in E'. injection E' as <- ->. simpl in Hv.
  destruct Hv as [Hc | H]; [by left | right].
  rewrite length_app. split; [lia|]. apply lookup_ge_None. lia.
Qed.

Lemma evaluate_returns_constant_or_new_witness :
  loaded initial_heap /\
  evaluate (PrefixExpression "-" (IntegerLiteral 4)) initial_heap
    = Some (Obj 4, initial_heap ++ [Integer 4; Integer (-4)]) /\
  (constant 4 \/
   (length initial_heap <= 4 < length (initial_heap ++ [Integer 4; Integer (-4)])
    /\ initial_heap !! 4 = None)).
Proof.
  split; [by exists []|]. split; [reflexivity|].
  apply (evaluate_returns_constant_or_new
           (PrefixExpression "-" (IntegerLiteral 4)) initial_heap);
    [by exists [] | reflexivity].
Defined.

(** X4: in a store that holds the module constants, an infix expression
    evaluates to an absent value exactly when one of its operands does;
    when both operands evaluate to objects the result is an object, whatever
    the operator and the types. *)
Theorem infix_absent_iff_operand_absent (operator : string)
    (left right : Node) (h h1 h2 : heap) (vl vr : JSValue) :
  loaded h ->
  evaluate left h = Some (vl, h1) ->
  evaluate right h1 = Some (vr, h2) ->
  exists v h3,
    evaluate (InfixExpression operator left right) h = Some (v, h3) /\
    (absent v <-> absent vl \/ absent vr).
Proof.
  intros Hl El Er.
  destruct (evaluate_completes left h Hl) as (vl' & h1' & El' & Hp1 & Hal).
  rewrite El in El'. injection El' as <- <-.
  destruct (evaluate_completes right h1 (loaded_extends h h1 Hl Hp1))
    as (vr' & h2' & Er' & Hp2 & Har).
  rewrite Er in Er'. injection Er' as <- <-.
  simpl. unfold bind. rewrite El, Er.
  destruct vl as [l| |], vr as [r| |];
    try (exists JSundefined, h2; split; [done | simpl; tauto]).
  destruct Hal as [ol Hol], Har as [or Hor].
  apply (lookup_extends h1 h2) in Hol; [|done].
  destruct (evaluateInfixExpression_by_content operator ol or) as [[o|b] H];
    rewrite (H _ _ _ Hol Hor); eexists _, _; (split; [done | simpl; tauto]).
Qed.

Lemma infix_absent_iff_operand_absent_witness :
  loaded initial_heap /\
  exists v h3,
    evaluate (InfixExpression "*" (BooleanExpression true)
                (PrefixExpression "-" (BooleanExpression false)))
             initial_heap = Some (v, h3) /\
    (absent v <-> absent (Obj TRUE) \/ absent JSnull).
Proof.
  split; [by exists []|].
  apply (infix_absent_iff_operand_absent "*" (BooleanExpression true)
           (PrefixExpression "-" (BooleanExpression false))
           initial_heap initial_heap initial_heap (Obj TRUE) JSnull);
    [by exists [] | reflexivity | reflexivity].
Defined.

(** X5: [!!e] turns whatever object [e] evaluates to into a Boolean
    constant without allocating: [FALSE] when the object is the constant
    [FALSE] or [NULL], [TRUE] for every other object. *)
Theorem double_bang_is_a_Boolean_constant (right : Node) (h h1 : heap)
    (operand : ref) :
  evaluate right h = Some (Obj operand, h1) ->
  evaluate (PrefixExpression "!" (PrefixExpression "!" right)) h
  = Some (Obj (if Nat.eqb operand FALSE || Nat.eqb operand NULL
               then FALSE else TRUE), h1).
Proof.
  intros E. simpl. unfold bind. rewrite E. simpl.
  by destruct operand as [|[|[|operand]]].
Qed.

Lemma double_bang_is_a_Boolean_constant_witness :
  evaluate (IntegerLiteral 5) initial_heap
    = Some (Obj 3, initial_heap ++ [Integer 5]) /\
  evaluate (PrefixExpression "!" (PrefixExpression "!" (IntegerLiteral 5)))
           initial_heap
    = Some (Obj TRUE, initial_heap ++ [Integer 5]).
Proof.
  split; [reflexivity|].
  exact (double_bang_is_a_Boolean_constant (IntegerLiteral 5) initial_heap
           (initial_heap ++ [Integer 5]) 3 eq_refl).
Defined.

(** X6: in a store that holds the module constants, [!] applied to any
    Integer and to any BooleanLiteral holding [true], the constant or not,
    returns [FALSE] and leaves the store as it was. *)
Theorem bang_of_truthy_object (h : heap) (operand : ref) (o : EvalObject) :
  loaded h -> h !! operand = Some o ->
  o <> BooleanLiteral false -> o <> Null ->
  evaluatePrefixExpression "!" operand h = Some (Obj FALSE, h).
Proof.
  intros (HN & HT & HF)%loaded_lookup Ho Hfalse Hnull.
  unfold evaluatePrefixExpression, ret. simpl. do 2 f_equal.
  unfold NULL, TRUE, FALSE in *.
  destruct operand as [|[|[|operand]]]; try done; congruence.
Qed.

Lemma bang_of_truthy_object_witness :
  loaded (initial_heap ++ [Integer 0]) /\
  (initial_heap ++ [Integer 0]) !! 3 = Some (Integer 0) /\
  evaluatePrefixExpression "!" 3 (initial_heap ++ [Integer 0])
    = Some (Obj FALSE, initial_heap ++ [Integer 0]).
Proof.
  split; [by exists [Integer 0]|]. split; [reflexivity|].
  apply (bang_of_truthy_object (initial_heap ++ [Integer 0]) 3 (Integer 0));
    [by exists [Integer 0] | reflexivity | discriminate | discriminate].
Defined.

(** X7: a prefix expression whose operator is neither [!] nor [-] evaluates
    to the constant [NULL] whenever its operand evaluates to an object; the
    operand is evaluated, and then not looked at. *)
Theorem unknown_prefix_operator_is_NULL (operator : string) (right : Node)
    (h h1 : heap) (operand : ref) :
  operator <> "!" -> operator <> "-" ->
  evaluate right h = Some (Obj operand, h1) ->
  evaluate (PrefixExpression operator right) h = Some (Obj NULL, h1).
Proof.
  intros Hbang%String.eqb_neq Hminus%String.eqb_neq E.
  simpl. unfold bind. rewrite E. unfold evaluatePrefixExpression.
  by rewrite Hbang, Hminus.
Qed.

Lemma unknown_prefix_operator_is_NULL_witness :
  "+" <> "!" /\ "+" <> "-" /\
  evaluate (PrefixExpression "+" (IntegerLiteral 5)) initial_heap
    = Some (Obj NULL, initial_heap ++ [Integer 5]).
Proof.
  split; [discriminate|]. split; [discriminate|].
  apply (unknown_prefix_operator_is_NULL "+" (IntegerLiteral 5) initial_heap
           (initial_heap ++ [Integer 5]) 3);
    [discriminate | discriminate | reflexivity].
Defined.

(** X8: on two Integers, [<], [>], [==] and [!=] return a BooleanLiteral
    object that holds the comparison of the two values as host numbers
    ([a > b] is [b < a], [a != b] the negation of [a == b]); the operands are
    not changed. *)
Theorem integer_comparison_holds_comparison (h : heap) (left right : ref)
    (a b : float) :
  h !! left = Some (Integer a) -> h !! right = Some (Integer b) ->
  forall operator value,
    (operator, value) ∈ [("<", (a <? b)%float); (">", (b <? a)%float);
                         ("==", (a =? b)%float);
                         ("!=", negb (a =? b)%float)] ->
    exists r h',
      evaluateInfixExpression operator left right h = Some (Obj r, h') /\
      h' !! r = Some (BooleanLiteral value) /\
      h' !! left = Some (Integer a) /\ h' !! right = Some (Integer b).
Proof.
  intros Ha Hb operator value Hin.
  destruct (evaluateIntegerInfixExpression_comparison h left right a b Ha Hb)
    as (Hlt & Hgt & Heq & Hne).
  assert (forall o, (h ++ [o]) !! left = Some (Integer a) /\
                    (h ++ [o]) !! right = Some (Integer b)) as Hkeep.
  { intros o. split; by apply lookup_app_l_Some. }
  repeat (apply elem_of_cons in Hin as [[= -> ->] | Hin];
          [eexists _, _; split; [eassumption|];
           split; [apply lookup_fresh | apply Hkeep]|]).
  by apply elem_of_nil in Hin.
Qed.

Lemma integer_comparison_holds_comparison_witness :
  (initial_heap ++ [Integer 1; Integer 2]) !! 3 = Some (Integer 1) /\
  (initial_heap ++ [Integer 1; Integer 2]) !! 4 = Some (Integer 2) /\
  exists r h',
    evaluateInfixExpression "<" 3 4 (initial_heap ++ [Integer 1; Integer 2])
      = Some (Obj r, h') /\
    h' !! r = Some (BooleanLiteral true) /\
    h' !! 3 = Some (Integer 1) /\ h' !! 4 = Some (Integer 2).
Proof.
  split; [reflexivity|]. split; [reflexivity|].
  apply (integer_comparison_holds_comparison
           (initial_heap ++ [Integer 1; Integer 2]) 3 4 1 2 eq_refl eq_refl
           "<" true).
  apply list_elem_of_here.
Defined.

(** X9: on two Booleans, [==] and [!=] compare the two values and return
    the module constant for the answer, also when the operands themselves
    are not the constants; nothing is allocated. *)
Theorem boolean_equality_returns_constant (h : heap) (left right : ref)
    (a b : bool) :
  h !! left = Some (BooleanLiteral a) -> h !! right = Some (BooleanLiteral b) ->
  evaluateInfixExpression "==" left right h
    = Some (Obj (if Bool.eqb a b then TRUE else FALSE), h) /\
  evaluateInfixExpression "!=" left right h
    = Some (Obj (if Bool.eqb a b then FALSE else TRUE), h).
Proof.
  intros Ha Hb.
  destruct (evaluateBooleanInfixExpression_equality h left right a b Ha Hb)
    as (-> & ->).
  unfold toBooleanLiteral. by destruct (Bool.eqb a b).
Qed.

Lemma boolean_equality_returns_constant_witness :
  (initial_heap ++ [BooleanLiteral false]) !! 3 = Some (BooleanLiteral false) /\
  (initial_heap ++ [BooleanLiteral false]) !! FALSE
    = Some (BooleanLiteral false) /\
  evaluateInfixExpression "==" 3 FALSE (initial_heap ++ [BooleanLiteral false])
    = Some (Obj TRUE, initial_heap ++ [BooleanLiteral false]).
Proof.
  split; [reflexivity|]. split; [reflexivity|].
  exact (proj1 (boolean_equality_returns_constant
                  (initial_heap ++ [BooleanLiteral false]) 3 FALSE false false
                  eq_refl eq_refl)).
Defined.

(** X10: an infix operator applied to two objects that are not both
    Integers and not both Booleans completes normally, whatever the
    operator, and returns an object of type NULL; the store is only
    extended. *)
Theorem infix_on_other_types_is_Null_object (h : heap) (left right : ref)
    (l r : EvalObject) (operator : string) :
  h !! left = Some l -> h !! right = Some r ->
  type_of l <> type_of r \/ type_of l = ObjectTypes.NULL ->
  exists result h',
    evaluateInfixExpression operator left right h = Some (Obj result, h') /\
    h' !! result = Some Null /\ h `prefix_of` h'.
Proof.
  intros Hl Hr Ht.
  rewrite (evaluateInfixExpression_other_types h left right l r operator
             Hl Hr Ht).
  eexists _, _. split; [done|]. split; [apply lookup_fresh|].
  by apply prefix_app_r.
Qed.

Lemma infix_on_other_types_is_Null_object_witness :
  (initial_heap ++ [Integer 1]) !! 3 = Some (Integer 1) /\
  (initial_heap ++ [Integer 1]) !! NULL = Some Null /\
  exists result h',
    evaluateInfixExpression "==" 3 NULL (initial_heap ++ [Integer 1])
      = Some (Obj result, h') /\
    h' !! result = Some Null /\ (initial_heap ++ [Integer 1]) `prefix_of` h'.
Proof.
  split; [reflexivity|]. split; [reflexivity|].
  apply (infix_on_other_types_is_Null_object (initial_heap ++ [Integer 1])
           3 NULL (Integer 1) Null "==" eq_refl eq_refl).
  left. discriminate.
Defined.

Lemma opp_involutive (x : float) : (- - x)%float = x.
Proof.
  apply Prim2SF_inj. rewrite !opp_spec.
  destruct (Prim2SF x) as [s|s| |s m e]; simpl; by rewrite ?negb_involutive.
Qed.

(** X11: negating twice gives the number back: when [e] evaluates to an
    Integer, [-(-e)] evaluates to an Integer that holds the same value, in
    a new object. *)
Theorem double_minus_restores_value (right : Node) (h h1 : heap)
    (operand : ref) (value : float) :
  evaluate right h = Some (Obj operand, h1) ->
  h1 !! operand = Some (Integer value) ->
  evaluate (PrefixExpression "-" (PrefixExpression "-" right)) h
  = Some (Obj (S (length h1)),
          h1 ++ [Integer (- value)%float; Integer value]).
Proof.
  intros E Ho. simpl. unfold bind. rewrite E.
  unfold evaluatePrefixExpression. simpl.
  rewrite (evaluateMinusOperatorExpression_run h1 operand _ Ho).
  rewrite (evaluateMinusOperatorExpression_run (h1 ++ [Integer (- value)%float])
             (length h1) (Integer (- value)%float));
    [|apply lookup_fresh].
  rewrite opp_involutive, length_app, <- app_assoc. simpl.
  by rewrite Nat.add_1_r.
Qed.

Lemma double_minus_restores_value_witness :
  evaluate (IntegerLiteral 5) initial_heap
    = Some (Obj 3, initial_heap ++ [Integer 5]) /\
  (initial_heap ++ [Integer 5]) !! 3 = Some (Integer 5) /\
  evaluate (PrefixExpression "-" (PrefixExpression "-" (IntegerLiteral 5)))
           initial_heap
    = Some (Obj 5, initial_heap ++ [Integer 5; Integer (-5); Integer 5]).
Proof.
  split; [reflexivity|]. split; [reflexivity|].
  exact (double_minus_restores_value (IntegerLiteral 5) initial_heap
           (initial_heap ++ [Integer 5]) 3 5 eq_refl eq_refl).
Defined.

(** X12: on two Integers, an operator that is none of [+ - * / < > == !=]
    returns an object of type NULL and raises nothing. *)
Theorem unknown_integer_operator_is_Null_object (h : heap) (left right : ref)
    (a b : float) (operator : string) :
  h !! left = Some (Integer a) -> h !! right = Some (Integer b) ->
  operator ∉ ["+"; "-"; "*"; "/"; "<"; ">"; "=="; "!="] ->
  exists result h',
    evaluateInfixExpression operator left right h = Some (Obj result, h') /\
    h' !! result = Some Null /\ h `prefix_of` h'.
Proof.
  intros Ha Hb Hop. exists (length h), (h ++ [Null]).
  split; [|split; [apply lookup_fresh | by apply prefix_app_r]].
  unfold evaluateInfixExpression. reads.
  unfold evaluateIntegerInfixExpression. reads.
  assert (forall s, s ∈ ["+"; "-"; "*"; "/"; "<"; ">"; "=="; "!="] ->
                    String.eqb operator s = false) as Hcase.
  { intros s Hs. apply String.eqb_neq. by intros ->. }
  by rewrite !Hcase by by repeat constructor.
Qed.

Lemma unknown_integer_operator_is_Null_object_witness :
  (initial_heap ++ [Integer 7; Integer 2]) !! 3 = Some (Integer 7) /\
  (initial_heap ++ [Integer 7; Integer 2]) !! 4 = Some (Integer 2) /\
  exists result h',
    evaluateInfixExpression "%" 3 4 (initial_heap ++ [Integer 7; Integer 2])
      = Some (Obj result, h') /\
    h' !! result = Some Null /\
    (initial_heap ++ [Integer 7; Integer 2]) `prefix_of` h'.
Proof.
  split; [reflexivity|]. split; [reflexivity|].
  apply (unknown_integer_operator_is_Null_object
           (initial_heap ++ [Integer 7; Integer 2]) 3 4 7 2 "%"
           eq_refl eq_refl).
  intros Hin. repeat (apply elem_of_cons in Hin as [Hin | Hin]; [discriminate|]).
  by apply elem_of_nil in Hin.
Defined.

Lemma for_of_app_any (self : Node -> M JSValue) (first second : list Node) :
  forall result h,
    for_of self (first ++ second) result h
    = (result' <- for_of self first result ;; for_of self second result') h.
Proof.
  induction first as [|statement rest IH]; intros result h; simpl; [done|].
  rewrite (bind_assoc_run (self statement)).
  unfold bind at 1 2. destruct (self statement h) as [[v h1]|]; [|done].
  apply IH.
Qed.

Lemma for_of_nonempty (self : Node -> M JSValue) (statements : list Node)
    (result result' : JSValue) (h : heap) :
  statements <> [] ->
  for_of self statements result h = for_of self statements result' h.
Proof. by destruct statements. Qed.

(** X13: a Program cut in two evaluates as its first part followed by its
    second part: when the second part has a statement, evaluating the whole
    is evaluating the Program of the first statements, dropping its result,
    and evaluating the Program of the remaining ones in the store it
    leaves. *)
Theorem program_append (first second : list Node) (h : heap) :
  second <> [] ->
  evaluate (Program (first ++ second)) h
  = (_ <- evaluate (Program first) ;; evaluate (Program second)) h.
Proof.
  intros Hne. simpl. rewrite for_of_app_any. unfold bind.
  destruct (for_of evaluate first JSundefined h) as [[v h1]|]; [|done].
  by apply for_of_nonempty.
Qed.

Lemma program_append_witness :
  [ExpressionStatement (BooleanExpression true)] <> [] /\
  evaluate (Program ([ExpressionStatement (IntegerLiteral 1)] ++
                     [ExpressionStatement (BooleanExpression true)]))
           initial_heap
  = Some (Obj TRUE, initial_heap ++ [Integer 1]).
Proof.
  split; [discriminate|].
  exact (program_append [ExpressionStatement (IntegerLiteral 1)]
           [ExpressionStatement (BooleanExpression true)] initial_heap
           ltac:(discriminate)).
Defined.

Lemma integer_arithmetic_run (h : heap) (left right : ref) (a b : float) :
  h !! left = Some (Integer a) -> h !! right = Some (Integer b) ->
  evaluateInfixExpression "+" left right h
    = Some (Obj (length h), h ++ [Integer (a + b)%float]) /\
  evaluateInfixExpression "-" left right h
    = Some (Obj (length h), h ++ [Integer (a - b)%float]) /\
  evaluateInfixExpression "*" left right h
    = Some (Obj (length h), h ++ [Integer (a * b)%float]) /\
  evaluateInfixExpression "/" left right h
    = Some (Obj (length h), h ++ [Integer (a / b)%float]).
Proof.
  intros Ha Hb. unfold evaluateInfixExpression. reads.
  unfold evaluateIntegerInfixExpression. reads. by repeat split.
Qed.

Lemma evaluate_arithmetic (node : Node) :
  forall (x : float) (h : heap),
    arithmetic_value node = Some x ->
    exists r k,
      evaluate node h = Some (Obj r, h ++ k) /\
      (h ++ k) !! r = Some (Integer x).
Proof.
  induction node as
    [statements IH | | | expression IH | | value | value
    | operator right IH | operator left right IHl IHr] using Node_nested_ind;
    intros x h Hx; simpl in Hx; try discriminate.
  - injection Hx as ->. exists (length h), [Integer x].
    split; [done | apply lookup_fresh].
  - destruct (arithmetic_value right) as [a|]; [|discriminate].
    destruct (String.eqb_spec operator "-") as [-> | _]; [|discriminate].
    injection Hx as <-. destruct (IH a h eq_refl) as (r & k & E & Hr).
    exists (length (h ++ k)), (k ++ [Integer (- a)%float]).
    simpl. unfold bind. rewrite E. unfold evaluatePrefixExpression. simpl.
    rewrite (evaluateMinusOperatorExpression_run _ _ _ Hr), app_assoc.
    split; [done | apply lookup_fresh].
  - destruct (arithmetic_value left) as [a|]; [|discriminate].
    destruct (arithmetic_value right) as [b|]; [|discriminate].
    destruct (IHl a h eq_refl) as (l & k1 & El & Hl).
    destruct (IHr b (h ++ k1) eq_refl) as (r & k2 & Er & Hr).
    apply (lookup_app_l_Some _ k2) in Hl.
    destruct (integer_arithmetic_run ((h ++ k1) ++ k2) l r a b Hl Hr)
      as (Hadd & Hsub & Hmul & Hdiv).
    exists (length ((h ++ k1) ++ k2)), (k1 ++ k2 ++ [Integer x]).
    simpl. unfold bind. rewrite El, Er, !app_assoc.
    split; [|apply lookup_fresh].
    destruct (String.eqb_spec operator "+") as [-> | _];
      [by injection Hx as <- |].
    destruct (String.eqb_spec operator "-") as [-> | _];
      [by injection Hx as <- |].
    destruct (String.eqb_spec operator "*") as [-> | _];
      [by injection Hx as <- |].
    destruct (String.eqb_spec operator "/") as [-> | _];
      [by injection Hx as <- | discriminate].
Qed.

(** X14: an expression made of integer literals, prefix [-] and infix
    [+ - * /] evaluates, in any store, to an Integer object that holds the
    number the expression stands for in the arithmetic of the host
    numbers; such an expression never evaluates to an absent value, to a
    Boolean or to a Null object. *)
Theorem arithmetic_expression_evaluates_to_its_value (node : Node)
    (x : float) (h : heap) :
  arithmetic_value node = Some x ->
  exists r h',
    evaluate node h = Some (Obj r, h') /\
    h' !! r = Some (Integer x) /\ h `prefix_of` h'.
Proof.
  intros Hx. destruct (evaluate_arithmetic node x h Hx) as (r & k & E & Hr).
  exists r, (h ++ k). split; [done|]. split; [done|]. by apply prefix_app_r.
Qed.

Lemma arithmetic_expression_evaluates_to_its_value_witness :
  arithmetic_value
    (InfixExpression "*"
       (InfixExpression "+" (IntegerLiteral 1) (IntegerLiteral 2))
       (PrefixExpression "-" (IntegerLiteral 3)))
  = Some (-9)%float /\
  exists r h',
    evaluate
      (InfixExpression "*"
         (InfixExpression "+" (IntegerLiteral 1) (IntegerLiteral 2))
         (PrefixExpression "-" (IntegerLiteral 3)))
      initial_heap = Some (Obj r, h') /\
    h' !! r = Some (Integer (-9)) /\ initial_heap `prefix_of` h'.
Proof.
  split; [reflexivity|].
  exact (arithmetic_expression_evaluates_to_its_value
           (InfixExpression "*"
              (InfixExpression "+" (IntegerLiteral 1) (IntegerLiteral 2))
              (PrefixExpression "-" (IntegerLiteral 3)))
           (-9)%float initial_heap eq_refl).
Defined.

Lemma evaluate_truth (node : Node) :
  forall (x : bool) (h : heap),
    loaded h -> truth_value node = Some x ->
    exists r k,
      evaluate node h = Some (Obj r, h ++ k) /\
      (h ++ k) !! r = Some (BooleanLiteral x).
Proof.
  induction node as
    [statements IH | | | expression IH | | value | value
    | operator right IH | operator left right IHl IHr] using Node_nested_ind;
    intros x h Hh Hx; simpl in Hx; try discriminate.
  - injection Hx as ->. exists (toBooleanLiteral x), [].
    rewrite app_nil_r. split; [done | by apply toBooleanLiteral_allocated].
  - destruct (arithmetic_value left) as [a|] eqn:Ea;
      [destruct (arithmetic_value right) as [b|] eqn:Eb|].
    + destruct (evaluate_arithmetic left a h Ea) as (l & k1 & El & Hl).
      destruct (evaluate_arithmetic right b (h ++ k1) Eb) as (r & k2 & Er & Hr).
      apply (lookup_app_l_Some _ k2) in Hl.
      destruct (evaluateIntegerInfixExpression_comparison
                  ((h ++ k1) ++ k2) l r a b Hl Hr) as (Hlt & Hgt & Heq & Hne).
      exists (length ((h ++ k1) ++ k2)), (k1 ++ k2 ++ [BooleanLiteral x]).
      simpl. unfold bind. rewrite El, Er, !app_assoc.
      split; [|apply lookup_fresh].
      destruct (String.eqb_spec operator "<") as [-> | _];
        [by injection Hx as <- |].
      destruct (String.eqb_spec operator ">") as [-> | _];
        [by injection Hx as <- |].
      destruct (String.eqb_spec operator "==") as [-> | _];
        [by injection Hx as <- |].
      destruct (String.eqb_spec operator "!=") as [-> | _];
        [by injection Hx as <- | discriminate].
    + destruct (truth_value left) as [a'|]; [|discriminate].
      destruct (truth_value right) as [b|]; [|discriminate].
      destruct (IHl a' h Hh eq_refl) as (l & k1 & El & Hl).
      destruct (IHr b (h ++ k1) (loaded_app _ _ Hh) eq_refl)
        as (r & k2 & Er & Hr).
      apply (lookup_app_l_Some _ k2) in Hl.
      destruct (evaluateBooleanInfixExpression_equality
                  ((h ++ k1) ++ k2) l r a' b Hl Hr) as (Heq & Hne).
      exists (toBooleanLiteral x), (k1 ++ k2).
      simpl. unfold bind. rewrite El, Er, !app_assoc.
      split; [|by apply toBooleanLiteral_allocated, loaded_app, loaded_app].
      destruct (String.eqb_spec operator "==") as [-> | _];
        [by injection Hx as <- |].
      destruct (String.eqb_spec operator "!=") as [-> | _];
        [by injection Hx as <- | discriminate].
    + destruct (truth_value left) as [a|]; [|discriminate].
      destruct (truth_value right) as [b|]; [|discriminate].
      destruct (IHl a h Hh eq_refl) as (l & k1 & El & Hl).
      destruct (IHr b (h ++ k1) (loaded_app _ _ Hh) eq_refl)
        as (r & k2 & Er & Hr).
      apply (lookup_app_l_Some _ k2) in Hl.
      destruct (evaluateBooleanInfixExpression_equality
                  ((h ++ k1) ++ k2) l r a b Hl Hr) as (Heq & Hne).
      exists (toBooleanLiteral x), (k1 ++ k2).
      simpl. unfold bind. rewrite El, Er, !app_assoc.
      split; [|by apply toBooleanLiteral_allocated, loaded_app, loaded_app].
      destruct (String.eqb_spec operator "==") as [-> | _];
        [by injection Hx as <- |].
      destruct (String.eqb_spec operator "!=") as [-> | _];
        [by injection Hx as <- | discriminate].
Qed.

(** X15: a Boolean literal, a comparison [< > == !=] of two arithmetic
    expressions, and [==] or [!=] between two such expressions evaluate, in
    a store that holds the module constants, to a BooleanLiteral object
    that holds the truth value the expression stands for: Booleans computed
    by comparisons are compared by their value. *)
Theorem comparison_expression_evaluates_to_its_truth_value (node : Node)
    (x : bool) (h : heap) :
  loaded h -> truth_value node = Some x ->
  exists r h',
    evaluate node h = Some (Obj r, h') /\
    h' !! r = Some (BooleanLiteral x) /\ h `prefix_of` h'.
Proof.
  intros Hh Hx. destruct (evaluate_truth node x h Hh Hx) as (r & k & E & Hr).
  exists r, (h ++ k). split; [done|]. split; [done|]. by apply prefix_app_r.
Qed.

Lemma comparison_expression_evaluates_to_its_truth_value_witness :
  loaded initial_heap /\
  truth_value
    (InfixExpression "=="
       (InfixExpression "<" (IntegerLiteral 1) (IntegerLiteral 2))
       (BooleanExpression true))
  = Some true /\
  exists r h',
    evaluate
      (InfixExpression "=="
         (InfixExpression "<" (IntegerLiteral 1) (IntegerLiteral 2))
         (BooleanExpression true))
      initial_heap = Some (Obj r, h') /\
    h' !! r = Some (BooleanLiteral true) /\ initial_heap `prefix_of` h'.
Proof.
  split; [by exists []|]. split; [reflexivity|].
  apply (comparison_expression_evaluates_to_its_truth_value
           (InfixExpression "=="
              (InfixExpression "<" (IntegerLiteral 1) (IntegerLiteral 2))
              (BooleanExpression true))
           true initial_heap); [by exists [] | reflexivity].
Defined.
